(** * CSV Sorter: the two page components of [src/app/page.tsx]

    The source file holds two variants of the page component [Home]:
    - the generic one (module [Generic]): upload, noise-row filter,
      user-chosen multi-key sort ([handleSort]), download;
    - the domain-specific one (module [Cards]): upload, noise-row filter,
      normalization onto the trading-card schema, fixed four-key sort.

    What the JavaScript engine provides and the repository only calls
    ([String.prototype.localeCompare], [String.prototype.toLowerCase]) is
    an interface, [Engine]; what ECMAScript fixes ([typeof], [String(v)],
    truthiness, [split], [includes], [Array.prototype.sort]) is written
    out below.  React state is a record threaded through the handlers. *)

From stdpp Require Import base option list gmap strings sorting.
From Stdlib Require Import ZArith String Ascii DecimalString.

Open Scope Z_scope.

(** ** JavaScript values held in a row *)

(** [interface CSVRow { [key: string]: string | number | boolean }].
    Numbers are the integer-valued ones ([NaN] and the infinities are
    outside the model). *)
Inductive Value : Type :=
  | VStr (s : string)
  | VNum (n : Z)
  | VBool (b : bool).

#[global] Instance Value_eq_dec : EqDecision Value.
Proof. solve_decision. Defined.

(** A row object: a finite map from column name to cell value.  A lookup
    that misses is JavaScript's [undefined]. *)
Abbreviation Row := (gmap string Value).

(** [Object.values(row)] and [Object.keys(row)].  The map lists its entries
    in its own canonical order, the engine in insertion order; the order is
    not observed by [some]. *)
Definition Object_values (row : Row) : list Value := (map_to_list row).*2.
Definition Object_keys (row : Row) : list string := (map_to_list row).*1.

(** [String(v)], for a cell or [undefined].  An integer prints in decimal,
    as the engine prints it below 10^21. *)
Definition String_of (v : option Value) : string :=
  match v with
  | None => "undefined"
  | Some (VStr s) => s
  | Some (VNum n) => NilZero.string_of_int (Z.to_int n)
  | Some (VBool true) => "true"
  | Some (VBool false) => "false"
  end.

(** Truthiness, as [||] tests it. *)
Definition truthy (v : Value) : bool :=
  match v with
  | VStr s => negb (String.eqb s "")
  | VNum n => negb (n =? 0)
  | VBool b => b
  end.

(** [cell || dflt] where [cell] is a row lookup. *)
Definition or_else (cell : option Value) (dflt : Value) : Value :=
  match cell with
  | Some v => if truthy v then v else dflt
  | None => dflt
  end.

(** ** Strings *)

(** [s.startsWith(sub)], the step of [includes]. *)
Fixpoint startsWith (sub s : string) : bool :=
  match sub, s with
  | EmptyString, _ => true
  | String c sub', String d s' => Ascii.eqb c d && startsWith sub' s'
  | String _ _, EmptyString => false
  end.

(** [s.includes(sub)]: [sub] occurs in [s] at some position. *)
Fixpoint includes (s sub : string) : bool :=
  startsWith sub s ||
  match s with
  | EmptyString => false
  | String _ s' => includes s' sub
  end.

(** [s.split(sep)] for a one-character separator: the segments between the
    occurrences of [sep]; a string without [sep] is its own single segment. *)
Fixpoint split (sep : ascii) (s : string) : list string :=
  match s with
  | EmptyString => [EmptyString]
  | String c s' =>
      if Ascii.eqb c sep then EmptyString :: split sep s'
      else match split sep s' with
           | seg :: segs => String c seg :: segs
           | [] => [String c EmptyString]
           end
  end.

(** ** What the engine provides *)

(** [a.localeCompare(b)] (negative, zero or positive) and
    [s.toLowerCase()]. *)
Class Engine : Type := {
  localeCompare : string -> string -> Z;
  toLowerCase : string -> string
}.

(** The property of a collation that [handleSort] relies on when it swaps
    the operands for a descending key. *)
Definition Antisymmetric_collation (E : Engine) : Prop :=
  forall s t : string, localeCompare t s = - localeCompare s t.

(** ** [Array.prototype.sort] *)

(** ECMAScript requires the sort to be stable and leaves the sequence of
    comparator calls to the engine; this is the stable insertion sort, which
    every conforming sort agrees with on a consistent comparator.
    [cmp x y > 0] means [x] goes after [y]. *)
Fixpoint sorted_insert {A : Type} (cmp : A -> A -> Z) (x : A) (l : list A) : list A :=
  match l with
  | [] => [x]
  | y :: l' => if 0 <? cmp x y then y :: sorted_insert cmp x l' else x :: y :: l'
  end.

Fixpoint Array_sort {A : Type} (cmp : A -> A -> Z) (l : list A) : list A :=
  match l with
  | [] => []
  | x :: l' => sorted_insert cmp x (Array_sort cmp l')
  end.

(** ** Exceptions *)

Inductive JsError : Type :=
  | TypeError.

(** A computation that returns or throws. *)
Inductive Exc (A : Type) : Type :=
  | Ok (a : A)
  | Throw (e : JsError).
Arguments Ok {A} a.
Arguments Throw {A} e.

#[global] Instance exc_ret : MRet Exc := fun A a => Ok a.

#[global] Instance exc_bind : MBind Exc := fun A B k m =>
  match m with
  | Ok a => k a
  | Throw e => Throw e
  end.

(** [l.map(f)] when [f] may throw: the first exception ends the loop. *)
Fixpoint map_exc {A B : Type} (f : A -> Exc B) (l : list A) : Exc (list B) :=
  match l with
  | [] => Ok []
  | x :: l' => y ← f x; ys ← map_exc f l'; Ok (y :: ys)
  end.

(** The sort when the comparator may throw. *)
Fixpoint sorted_insert_exc {A : Type} (cmp : A -> A -> Exc Z) (x : A) (l : list A)
  : Exc (list A) :=
  match l with
  | [] => Ok [x]
  | y :: l' =>
      r ← cmp x y;
      if 0 <? r then (t ← sorted_insert_exc cmp x l'; Ok (y :: t))
      else Ok (x :: y :: l')
  end.

Fixpoint Array_sort_exc {A : Type} (cmp : A -> A -> Exc Z) (l : list A) : Exc (list A) :=
  match l with
  | [] => Ok []
  | x :: l' => t ← Array_sort_exc cmp l'; sorted_insert_exc cmp x t
  end.

(** ** Arrays *)

(** [l.findIndex(p)]: the index of the first element that satisfies [p],
    [-1] when there is none. *)
Fixpoint findIndex_from {A : Type} (p : A -> bool) (i : Z) (l : list A) : Z :=
  match l with
  | [] => -1
  | x :: l' => if p x then i else findIndex_from p (i + 1) l'
  end.

Definition findIndex {A : Type} (p : A -> bool) (l : list A) : Z :=
  findIndex_from p 0 l.

(** [l.splice(start, 1)], as it leaves [l]: a negative [start] counts from
    the end, and a [start] past the end deletes nothing. *)
Definition splice_one {A : Type} (start : Z) (l : list A) : list A :=
  let len := Z.of_nat (List.length l) in
  let actualStart := if start <? 0 then Z.max (len + start) 0 else Z.min start len in
  let actualDeleteCount := Z.min (Z.max 1 0) (len - actualStart) in
  take (Z.to_nat actualStart) l ++ drop (Z.to_nat (actualStart + actualDeleteCount)) l.

(** [l.filter((_, i) => p(i))] *)
Fixpoint filter_index_from {A : Type} (p : nat -> bool) (i : nat) (l : list A) : list A :=
  match l with
  | [] => []
  | x :: l' => if p i then x :: filter_index_from p (S i) l' else filter_index_from p (S i) l'
  end.

Definition filter_index {A : Type} (p : nat -> bool) (l : list A) : list A :=
  filter_index_from p 0 l.

(** What a download hands to the browser: the [download] attribute of the
    link, the type of the blob, and the rows given to [Papa.unparse]. *)
Record Download (A : Type) : Type := {
  file_name : string;
  mime_type : string;
  unparsed : list A
}.
Arguments file_name {A} d.
Arguments mime_type {A} d.
Arguments unparsed {A} d.

(** ** The generic variant *)

Module Generic.

Inductive Order : Type := asc | desc.

(** One entry of [sortColumns]: [{ column, order }]. *)
Record SortKey : Type := { column : string; order : Order }.

(** [interface PapaParseResult]; [errors] and [meta] are never read by
    this variant. *)
Record PapaParseResult : Type := { data : list Row }.

(** The five [useState] cells of [Home]. *)
Record State : Type := {
  csvData : list Row;
  headers : list string;
  sortColumns : list SortKey;
  sortedData : list Row;
  error : string
}.

Definition setCsvData (v : list Row) (st : State) : State :=
  {| csvData := v; headers := headers st; sortColumns := sortColumns st;
     sortedData := sortedData st; error := error st |}.
Definition setHeaders (v : list string) (st : State) : State :=
  {| csvData := csvData st; headers := v; sortColumns := sortColumns st;
     sortedData := sortedData st; error := error st |}.
Definition setSortColumns (v : list SortKey) (st : State) : State :=
  {| csvData := csvData st; headers := headers st; sortColumns := v;
     sortedData := sortedData st; error := error st |}.
Definition setSortedData (v : list Row) (st : State) : State :=
  {| csvData := csvData st; headers := headers st; sortColumns := sortColumns st;
     sortedData := v; error := error st |}.
Definition setError (v : string) (st : State) : State :=
  {| csvData := csvData st; headers := headers st; sortColumns := sortColumns st;
     sortedData := sortedData st; error := v |}.

Definition initial : State :=
  {| csvData := []; headers := []; sortColumns := []; sortedData := []; error := "" |}.

(** A handler either returns or throws; the state updates it made before
    the exception stay made. *)
Inductive Completion : Type :=
  | Returns (st : State)
  | Throws (e : JsError) (st : State).

Definition state_after (c : Completion) : State :=
  match c with
  | Returns st => st
  | Throws _ st => st
  end.

(** [typeof value === 'string' && value.includes('Orders Contained in Pull Sheet')] *)
Definition is_noise_value (value : Value) : bool :=
  match value with
  | VStr s => includes s "Orders Contained in Pull Sheet"
  | _ => false
  end.

(** The callback of [results.data.filter]: the row is kept when no value
    of it is a noise value. *)
Definition keep_row (row : Row) : bool :=
  negb (existsb is_noise_value (Object_values row)).

Definition filter_rows (rows : list Row) : list Row :=
  List.filter keep_row rows.

(** The [complete] callback given to [Papa.parse]. *)
Definition complete (results : PapaParseResult) (st : State) : Completion :=
  let filteredData := filter_rows (data results) in
  let st1 := setCsvData filteredData st in
  match filteredData !! 0%nat with
  | Some row0 => Returns (setHeaders (Object_keys row0) st1)
  | None => Throws TypeError st1   (* Object.keys(undefined) *)
  end.

(** What a file-input change event leads to: no file chosen, or the
    parser calling [complete] or [error]. *)
Inductive Upload : Type :=
  | NoFile
  | ParseComplete (results : PapaParseResult)
  | ParseError.

Definition handleFileUpload (ev : Upload) (st : State) : Completion :=
  match ev with
  | NoFile => Returns st
  | ParseComplete results => complete results st
  | ParseError => Returns (setError "Error parsing CSV file" st)
  end.

Section Sort.
Context `{E : Engine}.

(** The body of the [for] loop of the comparator, for one key: the
    value the loop would return if it is not zero. *)
Definition compare_key (k : SortKey) (a b : Row) : Z :=
  let aValue := a !! column k in
  let bValue := b !! column k in
  match aValue, bValue with
  | Some (VStr x), Some (VStr y) =>
      match order k with
      | asc => localeCompare x y
      | desc => localeCompare y x
      end
  | Some (VNum x), Some (VNum y) =>
      match order k with
      | asc => x - y
      | desc => y - x
      end
  | Some (VBool x), Some (VBool y) =>
      match order k with
      | asc => Z.b2z x - Z.b2z y
      | desc => Z.b2z y - Z.b2z x
      end
  | _, _ =>
      let aStr := String_of aValue in
      let bStr := String_of bValue in
      match order k with
      | asc => localeCompare aStr bStr
      | desc => localeCompare bStr aStr
      end
  end.

(** The comparator passed to [sort]: the loop over [sortColumns] with
    its early return, then [return 0]. *)
Fixpoint comparator (keys : list SortKey) (a b : Row) : Z :=
  match keys with
  | [] => 0
  | k :: keys' =>
      let result := compare_key k a b in
      if negb (result =? 0) then result else comparator keys' a b
  end.

(** [[...csvData].sort(...)] *)
Definition sort_rows (keys : list SortKey) (rows : list Row) : list Row :=
  Array_sort (comparator keys) rows.

Definition handleSort (st : State) : State :=
  match csvData st with
  | [] => st
  | _ :: _ => setSortedData (sort_rows (sortColumns st) (csvData st)) st
  end.
End Sort.

(** [downloadSortedCSV] returns at once on an empty [sortedData]; the
    button that calls it is rendered under [csvData.length > 0] and
    [sortedData.length > 0]. *)
Definition download_offered (st : State) : bool :=
  (0 <? List.length (csvData st))%nat && (0 <? List.length (sortedData st))%nat.

(** The banner is rendered under [error &&]. *)
Definition error_shown (st : State) : bool := negb (String.eqb (error st) "").

(** The sort controls are rendered under [csvData.length > 0]. *)
Definition dataset_shown (st : State) : bool := (0 <? List.length (csvData st))%nat.

(** [addSortColumn]: an existing key for the column is spliced out of the
    array the state holds, and the new key goes last. *)
Definition addSortColumn (column0 : string) (order0 : Order) (st : State) : State :=
  if String.eqb column0 "" then st
  else
    let existingIndex :=
      findIndex (fun c => String.eqb (column c) column0) (sortColumns st) in
    let spliced :=
      if negb (existingIndex =? -1) then splice_one existingIndex (sortColumns st)
      else sortColumns st in
    setSortColumns (spliced ++ [ {| column := column0; order := order0 |} ]) st.

(** [removeSortColumn] *)
Definition removeSortColumn (index : Z) (st : State) : State :=
  let newSortColumns := splice_one index (sortColumns st) in
  setSortColumns newSortColumns st.

(** The [onChange] handlers of the six selectors, in the order of the
    page: column and direction of the primary, secondary and tertiary
    slot. *)
Definition primary_column_changed (value : string) (st : State) : State :=
  setSortColumns [ {| column := value; order := asc |} ] st.

Definition primary_order_changed (value : Order) (st : State) : State :=
  match sortColumns st with
  | current :: _ => setSortColumns [ {| column := column current; order := value |} ] st
  | [] => st
  end.

Definition secondary_column_changed (value : string) (st : State) : State :=
  match sortColumns st with
  | current :: _ => setSortColumns [ current; {| column := value; order := asc |} ] st
  | [] => st
  end.

Definition secondary_order_changed (value : Order) (st : State) : State :=
  match sortColumns st with
  | first :: current :: _ =>
      setSortColumns [ first; {| column := column current; order := value |} ] st
  | _ => st
  end.

Definition tertiary_column_changed (value : string) (st : State) : State :=
  match sortColumns st with
  | first :: current :: _ =>
      setSortColumns [ first; current; {| column := value; order := asc |} ] st
  | _ => st
  end.

Definition tertiary_order_changed (value : Order) (st : State) : State :=
  match sortColumns st with
  | first :: second :: current :: _ =>
      setSortColumns [ first; second; {| column := column current; order := value |} ] st
  | _ => st
  end.

(** The [onClick] of the Remove button of entry [index]. *)
Definition remove_clicked (index : nat) (st : State) : State :=
  setSortColumns (filter_index (fun i => negb (i =? index)%nat) (sortColumns st)) st.

(** [downloadSortedCSV]: nothing on an empty [sortedData]. *)
Definition downloadSortedCSV (st : State) : option (Download Row) :=
  match sortedData st with
  | [] => None
  | _ :: _ =>
      Some {| file_name := "sorted-data.csv"; mime_type := "text/csv";
              unparsed := sortedData st |}
  end.

(** What the page reacts to. *)
Inductive Event : Type :=
  | FileChosen (u : Upload)
  | PrimaryColumn (value : string)
  | PrimaryOrder (value : Order)
  | SecondaryColumn (value : string)
  | SecondaryOrder (value : Order)
  | TertiaryColumn (value : string)
  | TertiaryOrder (value : Order)
  | RemoveClicked (index : nat)
  | SortClicked
  | DownloadClicked.

Section Session.
Context `{E : Engine}.

(** The state after the handler of an event has run, thrown or not. *)
Definition step (st : State) (ev : Event) : State :=
  match ev with
  | FileChosen u => state_after (handleFileUpload u st)
  | PrimaryColumn value => primary_column_changed value st
  | PrimaryOrder value => primary_order_changed value st
  | SecondaryColumn value => secondary_column_changed value st
  | SecondaryOrder value => secondary_order_changed value st
  | TertiaryColumn value => tertiary_column_changed value st
  | TertiaryOrder value => tertiary_order_changed value st
  | RemoveClicked index => remove_clicked index st
  | SortClicked => handleSort st
  | DownloadClicked => st
  end.

(** The state of the page after a sequence of events, from the first
    render. *)
Definition run (evs : list Event) : State := fold_left step evs initial.
End Session.

End Generic.

(** ** The domain-specific variant *)

Module Cards.

(** [interface CSVRow]: the target schema.  The fields filled by
    [row[...] || ''] hold whatever that expression evaluates to, and
    [number] is the raw cell, possibly [undefined]. *)
Record CSVRow : Type := {
  numbershort : string;
  number : option Value;
  product_name : Value;
  condition : Value;
  qty : Value;
  rarity : Value;
  set : Value;
  notes : string
}.

#[global] Instance CSVRow_eq_dec : EqDecision CSVRow.
Proof. solve_decision. Defined.

(** One entry of [results.errors]. *)
Record ParseError : Type := { message : string }.

(** [Papa.ParseResult<CSVRow>]: the rows are the raw objects keyed by the
    file's header ([row: any] in the callbacks). *)
Record ParseResult : Type := { data : list Row; errors : list ParseError }.

(** The two [useState] cells of [Home]. *)
Record State : Type := { csvData : list CSVRow; error : string }.

Definition setCsvData (v : list CSVRow) (st : State) : State :=
  {| csvData := v; error := error st |}.
Definition setError (v : string) (st : State) : State :=
  {| csvData := csvData st; error := v |}.

Definition initial : State := {| csvData := []; error := "" |}.

(** [number?.split('-')[1] || '']: [undefined] short-circuits, a string
    is split, any other value has no [split] method. *)
Definition numbershort_of (number : option Value) : Exc string :=
  match number with
  | None => Ok ""
  | Some (VStr s) =>
      Ok (match split "-" s !! 1%nat with
          | Some seg => if String.eqb seg "" then "" else seg
          | None => ""
          end)
  | Some _ => Throw TypeError
  end.

(** The callback of [.map]. *)
Definition map_row (row : Row) : Exc CSVRow :=
  let number := row !! "Number" in
  numbershort ← numbershort_of number;
  let quantity := or_else (row !! "Quantity") (VStr "1") in
  Ok {| numbershort := numbershort;
        number := number;
        product_name := or_else (row !! "Product Name") (VStr "");
        condition := or_else (row !! "Condition") (VStr "");
        qty := quantity;
        rarity := or_else (row !! "Rarity") (VStr "");
        set := or_else (row !! "Set") (VStr "");
        notes := "" |}.

Section Pipeline.
Context `{E : Engine}.

(** The callback of [.some] in the filter. *)
Definition is_noise_value (value : Value) : bool :=
  match value with
  | VStr s =>
      let lowerValue := toLowerCase s in
      includes lowerValue "orders contained in pull sheet"
      || includes lowerValue "pull sheet"
  | _ => false
  end.

Definition keep_row (row : Row) : bool :=
  negb (existsb is_noise_value (Object_values row)).

Definition filter_rows (rows : list Row) : list Row :=
  List.filter keep_row rows.

(** [x.localeCompare(y)] on field values: the method exists on strings
    only, and its argument is converted with [String]. *)
Definition localeCompare_method (x y : Value) : Exc Z :=
  match x with
  | VStr s => Ok (localeCompare s (String_of (Some y)))
  | _ => Throw TypeError
  end.

(** The comparator of [.sort]; [!==] is strict inequality. *)
Definition compare_cards (a b : CSVRow) : Exc Z :=
  if bool_decide (set a ≠ set b) then localeCompare_method (set a) (set b)
  else if bool_decide (rarity a ≠ rarity b) then localeCompare_method (rarity a) (rarity b)
  else if bool_decide (condition a ≠ condition b)
       then localeCompare_method (condition a) (condition b)
  else localeCompare_method (product_name a) (product_name b).

(** [results.data.filter(...).map(...).sort(...)] *)
Definition transform (rows : list Row) : Exc (list CSVRow) :=
  cards ← map_exc map_row (filter_rows rows);
  Array_sort_exc compare_cards cards.

(** What a file-input change event leads to: no file chosen, or the
    parse promise resolved or rejected. *)
Inductive Upload : Type :=
  | NoFile
  | Resolved (results : ParseResult)
  | Rejected.

Definition handleFileUpload (ev : Upload) (st : State) : State :=
  match ev with
  | NoFile => st
  | Rejected => setError "Error processing CSV file" st
  | Resolved results =>
      match errors results with
      | e :: _ => setError (message e) st
      | [] =>
          let st1 := setError "" st in
          match transform (data results) with
          | Ok transformedData => setCsvData transformedData st1
          | Throw _ => setError "Error processing CSV file" st1
          end
      end
  end.
End Pipeline.

(** The download button and the table are rendered under
    [csvData.length > 0], the banner under [error &&]. *)
Definition download_offered (st : State) : bool := (0 <? List.length (csvData st))%nat.
Definition dataset_shown (st : State) : bool := (0 <? List.length (csvData st))%nat.
Definition error_shown (st : State) : bool := negb (String.eqb (error st) "").

(** [downloadCSV]: no test of the dataset. *)
Definition downloadCSV (st : State) : Download CSVRow :=
  {| file_name := "sorted_cards.csv"; mime_type := "text/csv"; unparsed := csvData st |}.

Section Session.
Context `{E : Engine}.

(** The state of the page after a sequence of file choices, from the
    first render. *)
Definition run (evs : list Upload) : State :=
  fold_left (fun st ev => handleFileUpload ev st) evs initial.
End Session.

End Cards.

(** ** Two engines to run the definitions on *)

(** ASCII lower-casing, which [toLowerCase] is on ASCII text. *)
Definition ascii_lower (c : ascii) : ascii :=
  let n := nat_of_ascii c in
  if ((65 <=? n) && (n <=? 90))%nat then ascii_of_nat (n + 32) else c.

Fixpoint lower_ascii (s : string) : string :=
  match s with
  | EmptyString => EmptyString
  | String c s' => String (ascii_lower c) (lower_ascii s')
  end.

Definition Z_of_comparison (c : comparison) : Z :=
  match c with
  | Lt => -1
  | Eq => 0
  | Gt => 1
  end.

(** Comparison by code units, the order of [<] on strings. *)
Definition code_unit_compare (s t : string) : Z := Z_of_comparison (String.compare s t).

(** A collation in the manner of the root locale on ASCII letters:
    alphabetical whatever the case, and on a tie lower case first. *)
Definition alphabetical_compare (s t : string) : Z :=
  match String.compare (lower_ascii s) (lower_ascii t) with
  | Eq => Z_of_comparison (String.compare t s)
  | c => Z_of_comparison c
  end.

Definition code_unit_engine : Engine :=
  {| localeCompare := code_unit_compare; toLowerCase := lower_ascii |}.

Definition alphabetical_engine : Engine :=
  {| localeCompare := alphabetical_compare; toLowerCase := lower_ascii |}.

(** ** The notions the specification is worded in *)

(** [sub] occurs in [s] as a substring. *)
Definition Occurs (sub s : string) : Prop :=
  exists pre post : string, s = pre +:+ sub +:+ post.

(** [Removes P l l']: [l'] is [l] without the elements that satisfy [P],
    the other elements all there and in their places. *)
Inductive Removes {A : Type} (P : A -> Prop) : list A -> list A -> Prop :=
  | Removes_nil : Removes P [] []
  | Removes_drop (x : A) (l l' : list A) :
      P x -> Removes P l l' -> Removes P (x :: l) l'
  | Removes_keep (x : A) (l l' : list A) :
      ~ P x -> Removes P l l' -> Removes P (x :: l) (x :: l').

Definition is_string (v : Value) : bool :=
  match v with
  | VStr _ => true
  | _ => false
  end.

(** A row as the parser delivers it without dynamic typing: every cell a
    string. *)
Definition string_row (row : Row) : bool := forallb is_string (Object_values row).

(** The text of [s] after its first [sep] (empty when there is none), and
    the text of [s] before its first [sep] (all of [s] when there is
    none). *)
Fixpoint text_after (sep : ascii) (s : string) : string :=
  match s with
  | EmptyString => EmptyString
  | String c s' => if Ascii.eqb c sep then s' else text_after sep s'
  end.

Fixpoint text_before (sep : ascii) (s : string) : string :=
  match s with
  | EmptyString => EmptyString
  | String c s' => if Ascii.eqb c sep then EmptyString else String c (text_before sep s')
  end.

(** The second segment of [s] cut at [sep]: what stands between the first
    and the second [sep]. *)
Definition second_segment (sep : ascii) (s : string) : string :=
  text_before sep (text_after sep s).

Module Policy.
Import Generic.

(** A row contains the generic variant's noise text in a string cell. *)
Definition generic_noise (row : Row) : Prop :=
  exists (col : string) (s : string),
    row !! col = Some (VStr s) /\ Occurs "Orders Contained in Pull Sheet" s.

(** A row contains one of the domain-specific variant's noise texts in a
    string cell, whatever the case of the cell's letters. *)
Definition cards_noise `{E : Engine} (row : Row) : Prop :=
  exists (col : string) (s : string),
    row !! col = Some (VStr s) /\
    (Occurs "orders contained in pull sheet" (toLowerCase s)
     \/ Occurs "pull sheet" (toLowerCase s)).

(** [false < true]. *)
Definition compare_booleans (x y : bool) : Z :=
  match x, y with
  | false, true => -1
  | true, false => 1
  | _, _ => 0
  end.

(** The per-key comparison of two cells, before the direction applies. *)
Definition compare_values `{E : Engine} (x y : option Value) : Z :=
  match x, y with
  | Some (VStr s), Some (VStr t) => localeCompare s t
  | Some (VNum m), Some (VNum n) => m - n
  | Some (VBool p), Some (VBool q) => compare_booleans p q
  | _, _ => localeCompare (String_of x) (String_of y)
  end.

(** Ascending takes the comparison as it is, descending negates it. *)
Definition directed (o : Order) (r : Z) : Z :=
  match o with
  | asc => r
  | desc => - r
  end.

Definition key_result `{E : Engine} (k : SortKey) (a b : Row) : Z :=
  directed (order k) (compare_values (a !! column k) (b !! column k)).

(** The first result that is not a tie, zero when all are ties. *)
Definition first_decisive (results : list Z) : Z :=
  match List.find (fun r => negb (r =? 0)) results with
  | Some r => r
  | None => 0
  end.

Definition compare_rows `{E : Engine} (keys : list SortKey) (a b : Row) : Z :=
  first_decisive (List.map (fun k => key_result k a b) keys).

(** The order of the domain-specific variant: the first of [keys] on
    which the two records do not hold the identical value decides, by
    the collation; when none does, [final] decides. *)
Fixpoint first_differing `{E : Engine} (keys : list (Cards.CSVRow -> Value))
    (final : Cards.CSVRow -> Value) (a b : Cards.CSVRow) : Z :=
  match keys with
  | [] => localeCompare (String_of (Some (final a))) (String_of (Some (final b)))
  | k :: keys' =>
      if bool_decide (k a = k b) then first_differing keys' final a b
      else localeCompare (String_of (Some (k a))) (String_of (Some (k b)))
  end.

Definition card_order `{E : Engine} (a b : Cards.CSVRow) : Z :=
  first_differing [Cards.set; Cards.rarity; Cards.condition] Cards.product_name a b.

(** The same key sequence under plain comparison, by code units. *)
Definition plain_card_order (a b : Cards.CSVRow) : Z :=
  card_order (E := code_unit_engine) a b.

End Policy.

(** The four sort fields of a record are strings. *)
Definition string_fields (c : Cards.CSVRow) : bool :=
  is_string (Cards.set c) && is_string (Cards.rarity c)
  && is_string (Cards.condition c) && is_string (Cards.product_name c).

(** A string cell with a default: the cell when it is there and not
    empty, the default otherwise. *)
Definition string_or (dflt : string) (cell : option string) : string :=
  match cell with
  | Some s => if String.eqb s "" then dflt else s
  | None => dflt
  end.

(** What every normalized record looks like: no notes, no ['-'] in the
    short number, a quantity that is not empty. *)
Definition normalized_shape (card : Cards.CSVRow) : Prop :=
  Cards.notes card = ""
  /\ includes (Cards.numbershort card) "-" = false
  /\ truthy (Cards.qty card) = true.


(** The slot a selector event belongs to: 0 for the primary pair of
    selectors, 1 for the secondary, 2 for the tertiary. *)
Definition selector_slot (ev : Generic.Event) : option nat :=
  match ev with
  | Generic.PrimaryColumn _ | Generic.PrimaryOrder _ => Some 0%nat
  | Generic.SecondaryColumn _ | Generic.SecondaryOrder _ => Some 1%nat
  | Generic.TertiaryColumn _ | Generic.TertiaryOrder _ => Some 2%nat
  | _ => None
  end.

(** ** Sample data *)

(** The two rows of the specification's first scenario. *)
Definition scenario_row_1 : Row :=
  list_to_map [("Number", VStr "LOB-001-EN"); ("Quantity", VStr "2"); ("Rarity", VStr "Common")].


(** Rows with one cell, and a state holding three priced rows and no sort
    key. *)
Definition price_row (n : Z) : Row := {[ "price" := VNum n ]}.

Definition set_row (s : string) : Row := {[ "Set" := VStr s ]}.

Definition priced_state : Generic.State :=
  {| Generic.csvData := [price_row 10; price_row 2; price_row 30];
     Generic.headers := ["price"];
     Generic.sortColumns := [];
     Generic.sortedData := [];
     Generic.error := "" |}.

Definition two_keys : list Generic.SortKey :=
  [ {| Generic.column := "Set"; Generic.order := Generic.desc |};
    {| Generic.column := "price"; Generic.order := Generic.asc |} ].

(** The record a row with the one cell [Set] normalizes to. *)
Definition card_of_set (s : string) : Cards.CSVRow :=
  {| Cards.numbershort := ""; Cards.number := None;
     Cards.product_name := VStr ""; Cards.condition := VStr "";
     Cards.qty := VStr "1"; Cards.rarity := VStr "";
     Cards.set := VStr s; Cards.notes := "" |}.

(** A state showing one record, and a parse result that reports an
    error. *)
Definition shown_state : Cards.State :=
  {| Cards.csvData := [card_of_set "LOB"]; Cards.error := "" |}.

Definition failed_parse : Cards.ParseResult :=
  {| Cards.data := []; Cards.errors := [ {| Cards.message := "Too few fields" |} ] |}.

(** A state with two sort keys on different columns. *)
Definition keyed_state : Generic.State :=
  {| Generic.csvData := [price_row 10; price_row 2; price_row 30];
     Generic.headers := ["price"];
     Generic.sortColumns :=
       [ {| Generic.column := "Set"; Generic.order := Generic.asc |};
         {| Generic.column := "price"; Generic.order := Generic.desc |} ];
     Generic.sortedData := [];
     Generic.error := "" |}.

(** A row whose [Number] cell is a number, and a predicate that picks one
    record. *)
Definition numbered_row : Row := {[ "Number" := VNum 7 ]}.


(** * Properties *)

(** ** Strings *)

Section StringFacts.

Lemma startsWith_spec (sub s : string) :
  startsWith sub s = true <-> exists post, s = sub +:+ post.
Proof.
  revert s. induction sub as [|c sub IH]; intros s; simpl.
  - split; [intros _; by exists s | done].
  - destruct s as [|d s]; simpl.
    + split; [done | by intros [post Hpost]].
    + rewrite andb_true_iff, IH, Ascii.eqb_eq. split.
      * intros [-> [post ->]]. by exists post.
      * intros [post Hpost]. injection Hpost as -> ->. eauto.
Qed.

Lemma includes_spec (s sub : string) :
  includes s sub = true <-> Occurs sub s.
Proof.
  unfold Occurs. induction s as [|c s IH]; simpl.
  - rewrite orb_false_r, startsWith_spec. split.
    + intros [post Hpost]. by exists EmptyString, post.
    + intros [[|d pre] [post Hpost]]; [by exists post | done].
  - rewrite orb_true_iff, startsWith_spec, IH. split.
    + intros [[post Hpost] | (pre & post & ->)].
      * by exists EmptyString, post.
      * by exists (String c pre), post.
    + intros [[|d pre] [post Hpost]].
      * left. by exists post.
      * right. simpl in Hpost. injection Hpost as _ ->. by exists pre, post.
Qed.

Lemma split_head (sep : ascii) (s : string) :
  exists segs, split sep s = text_before sep s :: segs.
Proof.
  induction s as [|c s [segs IH]]; simpl; [by eexists |].
  destruct (Ascii.eqb c sep); [by eexists |].
  rewrite IH. by eexists.
Qed.

(** The element of index 1 of [s.split(sep)]: present when [sep]
    occurs, and then the second segment. *)
Lemma split_second (sep : ascii) (s : string) :
  split sep s !! 1%nat =
  if includes s (String sep EmptyString) then Some (second_segment sep s) else None.
Proof.
  unfold second_segment. induction s as [|c s IH]; simpl; [done |].
  rewrite (Ascii.eqb_sym sep c).
  destruct (Ascii.eqb c sep) eqn:Hc; simpl.
  - destruct (split_head sep s) as [segs ->]. done.
  - destruct (split_head sep s) as [segs Hsegs]. rewrite Hsegs in IH |- *.
    simpl in IH |- *. exact IH.
Qed.

Lemma text_after_no_sep (sep : ascii) (s : string) :
  includes s (String sep EmptyString) = false -> text_after sep s = EmptyString.
Proof.
  induction s as [|c s IH]; simpl; [done |].
  rewrite (Ascii.eqb_sym sep c).
  destruct (Ascii.eqb c sep); simpl; [done | exact IH].
Qed.

End StringFacts.

(** ** Normalization in the domain-specific variant *)

Lemma numbershort_of_string (s : string) :
  Cards.numbershort_of (Some (VStr s)) = Ok (second_segment "-" s).
Proof.
  unfold Cards.numbershort_of. rewrite split_second.
  destruct (includes s "-") eqn:Hdash.
  - by destruct (String.eqb_spec (second_segment "-" s) "") as [-> |].
  - unfold second_segment. by rewrite text_after_no_sep.
Qed.

(** C2, as the code has it: [numbershort] is the second segment of the raw
    [Number] cut at ['-'], that is the text between its first and its
    second ['-'] (up to the end when there is no second one); it is the
    empty string when [Number] is absent or holds no ['-']. *)
Theorem numbershort_is_second_segment (row : Row) (n : option string) :
  row !! "Number" = VStr <$> n ->
  exists card : Cards.CSVRow,
    Cards.map_row row = Ok card
    /\ Cards.numbershort card = from_option (second_segment "-") "" n
    /\ (forall s, n = Some s -> includes s "-" = false -> Cards.numbershort card = "").
Proof.
  intros Hn. unfold Cards.map_row.
  destruct n as [s|]; simpl in Hn; rewrite Hn.
  - rewrite numbershort_of_string. eexists. split; [reflexivity |].
    simpl. split; [done |].
    intros s' [= <-] Hdash. unfold second_segment. by rewrite text_after_no_sep.
  - eexists. split; [reflexivity |]. simpl. split; [done | by intros s' [=]].
Qed.

Lemma numbershort_is_second_segment_witness :
  scenario_row_1 !! "Number" = VStr <$> Some "LOB-001-EN"
  /\ exists card : Cards.CSVRow,
       Cards.map_row scenario_row_1 = Ok card
       /\ Cards.numbershort card = from_option (second_segment "-") "" (Some "LOB-001-EN")
       /\ (forall s, Some "LOB-001-EN" = Some s -> includes s "-" = false ->
           Cards.numbershort card = "").
Proof.
  split; [vm_compute; reflexivity |].
  apply (numbershort_is_second_segment scenario_row_1 (Some "LOB-001-EN")).
  vm_compute; reflexivity.
Defined.

(** C2, as the claim has it, fails on its own example: the row
    [{Number: "LOB-001-EN", Quantity: "2", Rarity: "Common"}] normalizes to
    [numbershort = "001"], which is not ["001-EN"], the text after the
    first ['-']. *)
Lemma numbershort_scenario_is_not_the_rest :
  exists card : Cards.CSVRow,
    Cards.map_row scenario_row_1 = Ok card
    /\ Cards.numbershort card = "001"
    /\ text_after "-" "LOB-001-EN" = "001-EN"
    /\ Cards.numbershort card <> "001-EN".
Proof.
  eexists. split; [vm_compute; reflexivity |]. simpl. repeat split. discriminate.
Qed.



(** ** The noise-row filter *)

Section FilterFacts.
Context `{E : Engine}.

Lemma existsb_Object_values (p : Value -> bool) (row : Row) :
  existsb p (Object_values row) = true
  <-> exists (col : string) (v : Value), row !! col = Some v /\ p v = true.
Proof.
  unfold Object_values. rewrite existsb_exists. split.
  - intros (v & Hin & Hp). apply list_elem_of_In, list_elem_of_fmap in Hin.
    destruct Hin as ([col v'] & -> & Hin). apply elem_of_map_to_list in Hin.
    by exists col, v'.
  - intros (col & v & Hrow & Hp). exists v. split; [|done].
    apply list_elem_of_In, list_elem_of_fmap. exists (col, v). split; [done |].
    by apply elem_of_map_to_list.
Qed.

Lemma generic_keep_row_spec (row : Row) :
  Generic.keep_row row = false <-> Policy.generic_noise row.
Proof.
  unfold Generic.keep_row, Policy.generic_noise.
  rewrite negb_false_iff, existsb_Object_values. split.
  - intros (col & [s|n|b] & Hrow & Hv); simpl in Hv; try done.
    exists col, s. split; [done |]. by apply includes_spec.
  - intros (col & s & Hrow & Hocc). exists col, (VStr s). split; [done |].
    by apply includes_spec.
Qed.

Lemma cards_keep_row_spec (row : Row) :
  Cards.keep_row row = false <-> Policy.cards_noise row.
Proof.
  unfold Cards.keep_row, Policy.cards_noise.
  rewrite negb_false_iff, existsb_Object_values. split.
  - intros (col & [s|n|b] & Hrow & Hv); simpl in Hv; try done.
    exists col, s. split; [done |].
    apply orb_true_iff in Hv. by rewrite <- !includes_spec.
  - intros (col & s & Hrow & Hocc). exists col, (VStr s). split; [done |].
    simpl. apply orb_true_iff. by rewrite !includes_spec.
Qed.

Lemma filter_Removes {A : Type} (P : A -> Prop) (keep : A -> bool) (l : list A) :
  (forall x, keep x = false <-> P x) -> Removes P l (List.filter keep l).
Proof.
  intros Hkeep. induction l as [|x l IH]; simpl; [constructor |].
  destruct (keep x) eqn:Hx.
  - apply Removes_keep; [|done]. intros HP. apply Hkeep in HP. congruence.
  - apply Removes_drop; [by apply Hkeep | done].
Qed.

Lemma filter_twice {A : Type} (keep : A -> bool) (l : list A) :
  List.filter keep (List.filter keep l) = List.filter keep l.
Proof.
  induction l as [|x l IH]; simpl; [done |].
  destruct (keep x) eqn:Hx; simpl; [|done]. by rewrite Hx, IH.
Qed.

(** What [Removes] says about order and membership. *)
Lemma Removes_sublist {A : Type} (P : A -> Prop) (l l' : list A) :
  Removes P l l' -> sublist l' l.
Proof. induction 1; by constructor. Qed.

Lemma Removes_elem_of {A : Type} (P : A -> Prop) (l l' : list A) (x : A) :
  Removes P l l' -> x ∈ l' <-> x ∈ l /\ ~ P x.
Proof.
  induction 1 as [|y l l' Hy _ IH|y l l' Hy _ IH].
  - split; [by intros ?%elem_of_nil | by intros [?%elem_of_nil _]].
  - rewrite IH, elem_of_cons. split.
    + intros [Hin Hx]. split; [by right | done].
    + intros [[-> | Hin] Hx]; [done | by split].
  - rewrite !elem_of_cons, IH. split.
    + intros [-> | [Hin Hx]]; [by split; [left |] | by split; [right |]].
    + intros [[-> | Hin] Hx]; [by left | right; by split].
Qed.

End FilterFacts.

(** C4: the filter removes exactly the records in which some string value
    contains a noise text -- ["Orders Contained in Pull Sheet"] as it is
    written in the generic variant; ["orders contained in pull sheet"] or
    ["pull sheet"] in the lower-cased value in the domain-specific variant;
    only string values count, and the records that stay keep their order. *)
Theorem filter_removes_exactly_noise_rows `{E : Engine} (rows : list Row) :
  Removes Policy.generic_noise rows (Generic.filter_rows rows)
  /\ Removes Policy.cards_noise rows (Cards.filter_rows rows).
Proof.
  split; apply filter_Removes.
  - apply generic_keep_row_spec.
  - apply cards_keep_row_spec.
Qed.

(** C8: filtering what is already filtered changes nothing, in both
    variants. *)
Theorem filter_is_idempotent `{E : Engine} (rows : list Row) :
  Generic.filter_rows (Generic.filter_rows rows) = Generic.filter_rows rows
  /\ Cards.filter_rows (Cards.filter_rows rows) = Cards.filter_rows rows.
Proof. split; apply filter_twice. Qed.

(** ** The sort *)

Section SortFacts.
Context {A : Type} (cmp : A -> A -> Z).

Lemma sorted_insert_Permutation (x : A) (l : list A) :
  sorted_insert cmp x l ≡ₚ x :: l.
Proof.
  induction l as [|y l IH]; simpl; [done |].
  destruct (0 <? cmp x y); [|done].
  rewrite IH. apply Permutation_swap.
Qed.

Lemma Array_sort_Permutation (l : list A) : Array_sort cmp l ≡ₚ l.
Proof.
  induction l as [|x l IH]; simpl; [done |].
  by rewrite sorted_insert_Permutation, IH.
Qed.

(** When no call of the comparator says "after", nothing moves. *)
Lemma Array_sort_never_after (l : list A) :
  (forall x y, cmp x y <= 0) -> Array_sort cmp l = l.
Proof.
  intros Hcmp. induction l as [|x l IH]; simpl; [done |].
  rewrite IH. destruct l as [|y l]; simpl; [done |].
  destruct (Z.ltb_spec 0 (cmp x y)) as [Hlt|]; [|done].
  specialize (Hcmp x y). lia.
Qed.

(** Each element of the result is not after its successor, provided the
    comparator never puts two elements after each other. *)
Lemma sorted_insert_HdRel (x y : A) (l : list A) :
  cmp y x <= 0 -> HdRel (fun a b => cmp a b <= 0) y l ->
  HdRel (fun a b => cmp a b <= 0) y (sorted_insert cmp x l).
Proof.
  intros Hyx Hhd. destruct l as [|z l]; simpl; [by constructor |].
  destruct (0 <? cmp x z); constructor; [by inversion Hhd | done].
Qed.

Lemma sorted_insert_Sorted (x : A) (l : list A) :
  (forall a b, 0 < cmp a b -> cmp b a <= 0) ->
  Sorted (fun a b => cmp a b <= 0) l ->
  Sorted (fun a b => cmp a b <= 0) (sorted_insert cmp x l).
Proof.
  intros Hanti. induction l as [|y l IH]; intros Hl; simpl.
  - by repeat constructor.
  - apply Sorted_inv in Hl as [Hl Hhd].
    destruct (Z.ltb_spec 0 (cmp x y)) as [Hlt|Hle].
    + constructor; [by apply IH |]. apply sorted_insert_HdRel; [by apply Hanti | done].
    + constructor; [by constructor |]. by constructor.
Qed.

Lemma Array_sort_Sorted (l : list A) :
  (forall a b, 0 < cmp a b -> cmp b a <= 0) ->
  Sorted (fun a b => cmp a b <= 0) (Array_sort cmp l).
Proof.
  intros Hanti. induction l as [|x l IH]; simpl; [constructor |].
  by apply sorted_insert_Sorted.
Qed.

End SortFacts.

(** A comparator that never throws on the elements at hand sorts as the
    total sort does. *)
Lemma sorted_insert_exc_total {A : Type} (P : A -> Prop) (cmpE : A -> A -> Exc Z)
    (cmp : A -> A -> Z) (x : A) (l : list A) :
  (forall a b, P a -> cmpE a b = Ok (cmp a b)) ->
  P x -> sorted_insert_exc cmpE x l = Ok (sorted_insert cmp x l).
Proof.
  intros Hcmp Hx. induction l as [|y l IH]; simpl; [done |].
  rewrite (Hcmp x y Hx). simpl. destruct (0 <? cmp x y); [|done].
  by rewrite IH.
Qed.

Lemma Array_sort_exc_total {A : Type} (P : A -> Prop) (cmpE : A -> A -> Exc Z)
    (cmp : A -> A -> Z) (l : list A) :
  (forall a b, P a -> cmpE a b = Ok (cmp a b)) ->
  Forall P l -> Array_sort_exc cmpE l = Ok (Array_sort cmp l).
Proof.
  intros Hcmp. induction 1 as [|x l Hx Hl IH]; simpl; [done |].
  rewrite IH. simpl. by apply (sorted_insert_exc_total P).
Qed.

(** C5: the sorted copy holds the same records as the dataset, each as many
    times, whatever the sort keys. *)
Theorem sort_is_a_permutation `{E : Engine} (keys : list Generic.SortKey) (D : list Row) :
  Generic.sort_rows keys D ≡ₚ D.
Proof. apply Array_sort_Permutation. Qed.

(** [handleSort] stores a permutation of the dataset and touches nothing
    else; on an empty dataset it returns at once. *)
Lemma handleSort_stores_permutation `{E : Engine} (st : Generic.State) :
  Generic.csvData (Generic.handleSort st) = Generic.csvData st
  /\ Generic.sortedData (Generic.handleSort st)
     ≡ₚ match Generic.csvData st with
        | [] => Generic.sortedData st
        | _ :: _ => Generic.csvData st
        end.
Proof.
  unfold Generic.handleSort. destruct (Generic.csvData st) as [|row rows] eqn:Hdata.
  - by rewrite Hdata.
  - simpl. split; [done |]. apply Array_sort_Permutation.
Qed.

(** C10: with no sort key the comparator answers 0 to every pair, and
    sorting a dataset that is not empty returns its records in their
    original order. *)
Theorem empty_sort_spec_keeps_order `{E : Engine} (st : Generic.State) :
  Generic.csvData st <> [] ->
  Generic.sortColumns st = [] ->
  (forall a b : Row, Generic.comparator (Generic.sortColumns st) a b = 0)
  /\ Generic.sortedData (Generic.handleSort st) = Generic.csvData st.
Proof.
  intros Hdata Hkeys. rewrite Hkeys. split; [done |].
  unfold Generic.handleSort. destruct (Generic.csvData st) as [|row rows]; [done |].
  simpl. rewrite Hkeys. unfold Generic.sort_rows.
  apply Array_sort_never_after. intros a b. simpl. lia.
Qed.

Lemma empty_sort_spec_keeps_order_witness :
  Generic.sortedData (Generic.handleSort (E := code_unit_engine) priced_state)
  = [price_row 10; price_row 2; price_row 30].
Proof.
  apply (empty_sort_spec_keeps_order (E := code_unit_engine) priced_state).
  - discriminate.
  - reflexivity.
Defined.

(** ** The comparator of the generic variant *)

Lemma Z_of_comparison_CompOpp (c : comparison) :
  Z_of_comparison (CompOpp c) = - Z_of_comparison c.
Proof. by destruct c. Qed.

Lemma code_unit_compare_antisym (s t : string) :
  code_unit_compare t s = - code_unit_compare s t.
Proof.
  unfold code_unit_compare.
  by rewrite (String.compare_antisym t s), Z_of_comparison_CompOpp.
Qed.

Lemma code_unit_engine_antisymmetric : Antisymmetric_collation code_unit_engine.
Proof. intros s t. apply code_unit_compare_antisym. Qed.

Lemma alphabetical_compare_antisym (s t : string) :
  alphabetical_compare t s = - alphabetical_compare s t.
Proof.
  unfold alphabetical_compare.
  rewrite (String.compare_antisym (lower_ascii t) (lower_ascii s)).
  rewrite (String.compare_antisym s t).
  destruct (String.compare (lower_ascii s) (lower_ascii t)); simpl; try done.
  by destruct (String.compare t s).
Qed.

Lemma alphabetical_engine_antisymmetric : Antisymmetric_collation alphabetical_engine.
Proof. intros s t. apply alphabetical_compare_antisym. Qed.

Section ComparatorFacts.
Context `{E : Engine}.

(** What the loop body computes for one key, whatever the collation: the
    policy's comparison for an ascending key, and the same comparison with
    the two rows exchanged for a descending one. *)
Lemma compare_key_asc (col : string) (a b : Row) :
  Generic.compare_key {| Generic.column := col; Generic.order := Generic.asc |} a b
  = Policy.compare_values (a !! col) (b !! col).
Proof.
  unfold Generic.compare_key, Policy.compare_values. simpl.
  destruct (a !! col) as [[s|m|p]|], (b !! col) as [[t|n|q]|]; try done.
  by destruct p, q.
Qed.

Lemma compare_key_desc (col : string) (a b : Row) :
  Generic.compare_key {| Generic.column := col; Generic.order := Generic.desc |} a b
  = Policy.compare_values (b !! col) (a !! col).
Proof.
  unfold Generic.compare_key, Policy.compare_values. simpl.
  destruct (a !! col) as [[s|m|p]|], (b !! col) as [[t|n|q]|]; try done.
  by destruct p, q.
Qed.

Lemma compare_values_antisym (x y : option Value) :
  Antisymmetric_collation E ->
  Policy.compare_values y x = - Policy.compare_values x y.
Proof.
  intros Hanti. unfold Policy.compare_values.
  destruct x as [[s|m|p]|], y as [[t|n|q]|]; try apply Hanti; try lia.
  by destruct p, q.
Qed.

Lemma compare_key_policy (k : Generic.SortKey) (a b : Row) :
  Antisymmetric_collation E ->
  Generic.compare_key k a b = Policy.key_result k a b.
Proof.
  intros Hanti. destruct k as [col [|]]; unfold Policy.key_result; simpl.
  - apply compare_key_asc.
  - rewrite compare_key_desc. by apply compare_values_antisym.
Qed.

(** The loop returns at the first key that does not tie. *)
Lemma comparator_first_decisive (keys : list Generic.SortKey) (a b : Row) :
  Generic.comparator keys a b
  = Policy.first_decisive (List.map (fun k => Generic.compare_key k a b) keys).
Proof.
  unfold Policy.first_decisive. induction keys as [|k keys IH]; simpl; [done |].
  by destruct (negb (Generic.compare_key k a b =? 0)).
Qed.

(** Keys that tie are passed over, and a key that does not tie hides the
    keys after it. *)
Lemma comparator_skips_ties (ties keys : list Generic.SortKey) (a b : Row) :
  Forall (fun k => Generic.compare_key k a b = 0) ties ->
  Generic.comparator (ties ++ keys) a b = Generic.comparator keys a b.
Proof.
  induction 1 as [|k ties Hk _ IH]; simpl; [done |]. by rewrite Hk.
Qed.

Lemma comparator_stops (k : Generic.SortKey) (keys : list Generic.SortKey) (a b : Row) :
  Generic.compare_key k a b <> 0 ->
  Generic.comparator (k :: keys) a b = Generic.compare_key k a b.
Proof.
  intros Hk. simpl. by destruct (Z.eqb_spec (Generic.compare_key k a b) 0).
Qed.

End ComparatorFacts.

(** C1: the comparator of [handleSort] follows the per-key policy -- two
    strings by the collation, two numbers by their difference, two booleans
    with [false] before [true], anything else by the collation on the
    string representations; a descending key negates the result, key by
    key; the keys apply in sequence, a later one only when all the earlier
    ones tie. *)
Theorem comparator_follows_policy `{E : Engine} (keys : list Generic.SortKey) (a b : Row) :
  Antisymmetric_collation E ->
  Generic.comparator keys a b = Policy.compare_rows keys a b.
Proof.
  intros Hanti. rewrite comparator_first_decisive. unfold Policy.compare_rows.
  f_equal. apply map_ext. intros k. by apply compare_key_policy.
Qed.

Lemma comparator_follows_policy_witness :
  Antisymmetric_collation code_unit_engine
  /\ Generic.comparator (E := code_unit_engine) two_keys (price_row 10) (price_row 2)
     = Policy.compare_rows (E := code_unit_engine) two_keys (price_row 10) (price_row 2).
Proof.
  split; [exact code_unit_engine_antisymmetric |].
  apply (comparator_follows_policy (E := code_unit_engine) two_keys (price_row 10) (price_row 2)).
  exact code_unit_engine_antisymmetric.
Defined.

(** ** The sort of the domain-specific variant *)

Section CardFacts.
Context `{E : Engine}.

Lemma string_row_lookup (row : Row) (col : string) (v : Value) :
  string_row row = true -> row !! col = Some v -> is_string v = true.
Proof.
  unfold string_row, Object_values. rewrite forallb_forall. intros Hall Hrow.
  apply Hall, list_elem_of_In, list_elem_of_fmap. exists (col, v).
  split; [done |]. by apply elem_of_map_to_list.
Qed.

Lemma or_else_is_string (row : Row) (col dflt : string) :
  string_row row = true -> is_string (or_else (row !! col) (VStr dflt)) = true.
Proof.
  intros Hrow. unfold or_else. destruct (row !! col) as [v|] eqn:Hv; [|done].
  destruct (truthy v); [|done]. by apply (string_row_lookup row col).
Qed.

(** On rows of strings the [.map] callback returns, and its record has
    strings in the sort fields. *)
Lemma map_row_string_row (row : Row) :
  string_row row = true ->
  exists card, Cards.map_row row = Ok card /\ string_fields card = true.
Proof.
  intros Hrow. unfold Cards.map_row.
  destruct (row !! "Number") as [v|] eqn:Hn.
  - pose proof (string_row_lookup row "Number" v Hrow Hn) as Hv.
    destruct v as [s| |]; try done. rewrite numbershort_of_string.
    eexists. split; [reflexivity |]. unfold string_fields. simpl.
    by rewrite !or_else_is_string.
  - eexists. split; [reflexivity |]. unfold string_fields. simpl.
    by rewrite !or_else_is_string.
Qed.

Lemma map_exc_map_row_total (rows : list Row) :
  forallb string_row rows = true ->
  exists cards,
    map_exc Cards.map_row rows = Ok cards
    /\ Forall (fun c => string_fields c = true) cards.
Proof.
  induction rows as [|row rows IH]; simpl; [by exists [] |].
  intros [Hrow Hrows]%andb_true_iff.
  destruct (map_row_string_row row Hrow) as (card & -> & Hcard).
  destruct (IH Hrows) as (cards & -> & Hcards).
  exists (card :: cards). split; [done | by constructor].
Qed.

Lemma filter_rows_string_rows (rows : list Row) :
  forallb string_row rows = true ->
  forallb string_row (Cards.filter_rows rows) = true.
Proof.
  unfold Cards.filter_rows. induction rows as [|row rows IH]; simpl; [done |].
  intros [Hrow Hrows]%andb_true_iff.
  destruct (Cards.keep_row row); simpl; [|by apply IH].
  by rewrite Hrow, IH.
Qed.

(** The comparator on a record whose sort fields are strings: it does not
    throw, and its answer is the collation's on the first of set, rarity
    and condition that is not identical in the two records, else on the
    product name. *)
Lemma compare_cards_string_fields (a b : Cards.CSVRow) :
  string_fields a = true ->
  Cards.compare_cards a b = Ok (Policy.card_order a b).
Proof.
  unfold string_fields, Cards.compare_cards, Policy.card_order. simpl.
  destruct a as [ns n [p| |] [c| |] q [r| |] [s| |] nt]; simpl; try done.
  intros _. rewrite !bool_decide_not.
  destruct (bool_decide (VStr s = Cards.set b)); simpl; [|done].
  destruct (bool_decide (VStr r = Cards.rarity b)); simpl; [|done].
  by destruct (bool_decide (VStr c = Cards.condition b)).
Qed.

Lemma first_differing_antisym (keys : list (Cards.CSVRow -> Value))
    (final : Cards.CSVRow -> Value) (a b : Cards.CSVRow) :
  Antisymmetric_collation E ->
  Policy.first_differing keys final b a = - Policy.first_differing keys final a b.
Proof.
  intros Hanti. induction keys as [|k keys IH]; simpl; [apply Hanti |].
  destruct (decide (k a = k b)) as [Heq|Hne].
  - rewrite !bool_decide_eq_true_2; done.
  - rewrite !bool_decide_eq_false_2; [apply Hanti | done | congruence].
Qed.

End CardFacts.

(** C3, as the code has it: the records are sorted by set, then rarity,
    then condition, then product name, all ascending; a key decides when
    the two values are not identical, and the order on it is the
    locale-aware comparison [localeCompare] of the field values.  On rows
    of strings the pipeline returns, and each record of its result
    precedes or ties with its successor in that order. *)
Theorem cards_sorted_by_collation `{E : Engine} (rows : list Row) :
  Antisymmetric_collation E ->
  forallb string_row rows = true ->
  exists normalized : list Cards.CSVRow,
    map_exc Cards.map_row (Cards.filter_rows rows) = Ok normalized
    /\ Cards.transform rows = Ok (Array_sort Policy.card_order normalized)
    /\ Sorted (fun a b => Policy.card_order a b <= 0) (Array_sort Policy.card_order normalized).
Proof.
  intros Hanti Hrows.
  destruct (map_exc_map_row_total (Cards.filter_rows rows)) as (cards & Hmap & Hcards);
    [by apply filter_rows_string_rows |].
  exists cards. split; [done |]. split.
  - unfold Cards.transform. rewrite Hmap. simpl.
    apply (Array_sort_exc_total (fun c => string_fields c = true)); [|done].
    intros a b. apply compare_cards_string_fields.
  - apply Array_sort_Sorted. intros a b Hab.
    unfold Policy.card_order in *. rewrite (first_differing_antisym _ _ a b Hanti). lia.
Qed.

Lemma cards_sorted_by_collation_witness :
  exists normalized : list Cards.CSVRow,
    map_exc Cards.map_row
      (Cards.filter_rows (E := alphabetical_engine) [set_row "B"; set_row "a"])
    = Ok normalized
    /\ Cards.transform (E := alphabetical_engine) [set_row "B"; set_row "a"]
       = Ok (Array_sort (Policy.card_order (E := alphabetical_engine)) normalized)
    /\ Sorted (fun a b => Policy.card_order (E := alphabetical_engine) a b <= 0)
         (Array_sort (Policy.card_order (E := alphabetical_engine)) normalized).
Proof.
  apply (cards_sorted_by_collation (E := alphabetical_engine) [set_row "B"; set_row "a"]).
  - exact alphabetical_engine_antisymmetric.
  - vm_compute; reflexivity.
Defined.

(** C3, as the claim has it, fails: with a collation that puts letters in
    alphabetical order whatever their case, as [localeCompare] does, the
    set ["a"] comes before the set ["B"], while plain comparison puts ["B"]
    first. *)
Lemma cards_not_sorted_by_plain_comparison :
  Cards.transform (E := alphabetical_engine) [set_row "B"; set_row "a"]
  = Ok [card_of_set "a"; card_of_set "B"]
  /\ Policy.plain_card_order (card_of_set "a") (card_of_set "B") = 1
  /\ Array_sort Policy.plain_card_order [card_of_set "B"; card_of_set "a"]
     = [card_of_set "B"; card_of_set "a"].
Proof. repeat split; vm_compute; reflexivity. Qed.

(** ** Uploads and the state shown *)

(** The [complete] callback of the generic variant throws whenever no row
    survives the filter: [filteredData[0]] is [undefined], and
    [Object.keys(undefined)] is a [TypeError].  The dataset was stored
    before, the headers were not. *)
Lemma complete_throws_without_rows (results : Generic.PapaParseResult) (st : Generic.State) :
  Generic.filter_rows (Generic.data results) = [] ->
  Generic.complete results st = Generic.Throws TypeError (Generic.setCsvData [] st).
Proof. intros Hempty. unfold Generic.complete. by rewrite Hempty. Qed.

(** C6, where the code departs from it: on a file with a header and no
    data row the generic variant's handler does not return, it throws. *)
Theorem header_only_upload_throws :
  Generic.handleFileUpload (Generic.ParseComplete {| Generic.data := [] |}) Generic.initial
  = Generic.Throws TypeError Generic.initial.
Proof. reflexivity. Qed.

(** The domain-specific variant does what C6 says: an empty dataset, no
    error, no download button. *)
Lemma cards_header_only_upload `{E : Engine} (st : Cards.State) :
  Cards.handleFileUpload (Cards.Resolved {| Cards.data := []; Cards.errors := [] |}) st
  = {| Cards.csvData := []; Cards.error := "" |}
  /\ Cards.download_offered
       (Cards.handleFileUpload (Cards.Resolved {| Cards.data := []; Cards.errors := [] |}) st)
     = false.
Proof. done. Qed.

(** C9, as the code has it: an upload never leaves part of a dataset.  In
    the domain-specific variant it either stores the whole processed
    dataset and clears the error message, or leaves the dataset exactly as
    it was -- the records of an earlier file included -- and, when a file
    was given, sets an error message.  In the generic variant a parse error
    sets the message and leaves every other cell as it was, and a completed
    parse stores the whole filtered dataset. *)
Theorem upload_is_all_or_nothing `{E : Engine} :
  (forall (ev : Cards.Upload) (st : Cards.State),
     (exists results cards,
        ev = Cards.Resolved results /\ Cards.errors results = []
        /\ Cards.transform (Cards.data results) = Ok cards
        /\ Cards.handleFileUpload ev st = {| Cards.csvData := cards; Cards.error := "" |})
     \/ (Cards.csvData (Cards.handleFileUpload ev st) = Cards.csvData st
         /\ (ev = Cards.NoFile /\ Cards.handleFileUpload ev st = st
             \/ (exists results e es,
                   ev = Cards.Resolved results /\ Cards.errors results = e :: es
                   /\ Cards.error (Cards.handleFileUpload ev st) = Cards.message e)
             \/ Cards.error (Cards.handleFileUpload ev st) = "Error processing CSV file")))
  /\ (forall st : Generic.State,
        Generic.handleFileUpload Generic.ParseError st
        = Generic.Returns (Generic.setError "Error parsing CSV file" st)
        /\ Generic.csvData (Generic.setError "Error parsing CSV file" st) = Generic.csvData st)
  /\ (forall (results : Generic.PapaParseResult) (st : Generic.State),
        Generic.csvData
          (Generic.state_after (Generic.handleFileUpload (Generic.ParseComplete results) st))
        = Generic.filter_rows (Generic.data results)).
Proof.
  split; [|split].
  - intros [|[rows errs]|] st; simpl.
    + right. split; [done |]. by left.
    + destruct errs as [|e es]; simpl.
      * destruct (Cards.transform rows) as [cards|err] eqn:Hrows.
        -- left. by exists {| Cards.data := rows; Cards.errors := [] |}, cards.
        -- right. split; [done |]. by right; right.
      * right. split; [done |]. right; left.
        by exists {| Cards.data := rows; Cards.errors := e :: es |}, e, es.
    + right. split; [done |]. by right; right.
  - done.
  - intros results st. unfold Generic.handleFileUpload, Generic.complete.
    by destruct (Generic.filter_rows (Generic.data results) !! 0%nat).
Qed.

(** C9, as the claim has it, fails: when the parser reports an error while
    a dataset is shown, the message appears and the records of the earlier
    file stay on the page -- in the domain-specific variant and, through
    the [error] callback, in the generic one. *)
Lemma parse_error_keeps_previous_dataset :
  Cards.handleFileUpload (E := code_unit_engine) (Cards.Resolved failed_parse) shown_state
  = {| Cards.csvData := [card_of_set "LOB"]; Cards.error := "Too few fields" |}
  /\ Cards.error_shown
       (Cards.handleFileUpload (E := code_unit_engine) (Cards.Resolved failed_parse) shown_state)
     = true
  /\ Cards.dataset_shown
       (Cards.handleFileUpload (E := code_unit_engine) (Cards.Resolved failed_parse) shown_state)
     = true
  /\ Generic.handleFileUpload Generic.ParseError priced_state
     = Generic.Returns (Generic.setError "Error parsing CSV file" priced_state)
  /\ Generic.error_shown (Generic.setError "Error parsing CSV file" priced_state) = true
  /\ Generic.dataset_shown (Generic.setError "Error parsing CSV file" priced_state) = true.
Proof. repeat split. Qed.

(** * Further properties of the handlers *)

(** ** The list of sort keys *)

Section KeyListFacts.
Context {A : Type}.

Lemma findIndex_from_spec (p : A -> bool) (i : Z) (l : list A) :
  (findIndex_from p i l = -1 /\ Forall (fun x => p x = false) l) \/
  exists l1 x l2,
    l = l1 ++ x :: l2 /\ Forall (fun y => p y = false) l1 /\ p x = true
    /\ findIndex_from p i l = i + Z.of_nat (List.length l1).
Proof.
  revert i. induction l as [|x l IH]; intros i; simpl.
  - left. by split.
  - destruct (p x) eqn:Hx.
    + right. exists [], x, l. repeat split; [by constructor | done | simpl; lia].
    + destruct (IH (i + 1)) as [(Hr & Hall) | (l1 & y & l2 & -> & Hall & Hy & Hr)].
      * left. split; [done | by constructor].
      * right. exists (x :: l1), y, l2. repeat split; [by constructor | done |].
        rewrite Hr. simpl. lia.
Qed.

(** [splice] at an array index takes out the element there. *)
Lemma splice_one_at (l1 : list A) (x : A) (l2 : list A) :
  splice_one (Z.of_nat (List.length l1)) (l1 ++ x :: l2) = l1 ++ l2.
Proof.
  unfold splice_one. rewrite length_app. simpl.
  destruct (Z.ltb_spec (Z.of_nat (List.length l1)) 0) as [Hneg|_]; [lia |].
  rewrite Z.min_l by lia.
  rewrite (Z.max_l 1 0) by lia. rewrite Z.min_l by lia.
  rewrite Nat2Z.id.
  replace (Z.to_nat (Z.of_nat (List.length l1) + 1)) with (List.length l1 + 1)%nat by lia.
  rewrite take_app_length.
  rewrite drop_app_ge by lia.
  replace (List.length l1 + 1 - List.length l1)%nat with 1%nat by lia. done.
Qed.

Lemma filter_index_from_delete (index i : nat) (l : list A) :
  filter_index_from (fun j => negb (j =? index)%nat) i l
  = if (index <? i)%nat then l else delete (index - i)%nat l.
Proof.
  revert i. induction l as [|x l IH]; intros i; simpl.
  - by destruct (index <? i)%nat.
  - rewrite IH. destruct (Nat.eqb_spec i index) as [-> | Hne]; simpl.
    + rewrite Nat.ltb_irrefl, Nat.sub_diag. simpl.
      destruct (Nat.ltb_spec index (S index)); [done | lia].
    + destruct (Nat.ltb_spec index i) as [Hlt|Hge].
      * destruct (Nat.ltb_spec index (S i)); [done | lia].
      * destruct (Nat.ltb_spec index (S i)); [lia |].
        replace (index - i)%nat with (S (index - S i)) by lia. done.
Qed.

(** The Remove button's filter takes out the element at the index, if
    there is one. *)
Lemma filter_index_delete (index : nat) (l : list A) :
  filter_index (fun j => negb (j =? index)%nat) l = delete index l.
Proof.
  unfold filter_index. rewrite filter_index_from_delete. simpl.
  by rewrite Nat.sub_0_r.
Qed.

(** [splice(start, 1)] for every [start]: the element counted from the
    front, or from the end for a negative [start], goes; a [start] past
    the end takes nothing, one before the start takes the first element. *)
Lemma splice_one_delete (start : Z) (l : list A) :
  splice_one start l
  = delete (Z.to_nat (if start <? 0 then Z.max (Z.of_nat (List.length l) + start) 0
                      else start)) l.
Proof.
  unfold splice_one. rewrite delete_take_drop.
  set (len := Z.of_nat (List.length l)).
  destruct (Z.ltb_spec start 0) as [Hneg|Hpos].
  - f_equal. destruct (Z.le_gt_cases len (Z.max (len + start) 0)) as [Hle|Hlt].
    + rewrite !drop_ge; [done | lia | lia].
    + f_equal. lia.
  - destruct (Z.le_gt_cases len start) as [Hle|Hlt].
    + rewrite Z.min_r by lia. rewrite !take_ge by lia. rewrite !drop_ge; [done | lia | lia].
    + rewrite Z.min_l by lia. f_equal. f_equal. lia.
Qed.

End KeyListFacts.

Lemma filter_keeps_all {A : Type} (p : A -> bool) (l : list A) :
  Forall (fun x => p x = true) l -> List.filter p l = l.
Proof.
  induction 1 as [|x l Hx _ IH]; simpl; [done |]. by rewrite Hx, IH.
Qed.

Lemma other_columns (column0 : string) (l : list Generic.SortKey) :
  column0 ∉ Generic.column <$> l ->
  Forall (fun k => negb (String.eqb (Generic.column k) column0) = true) l.
Proof.
  intros Hnot. apply Forall_forall. intros k Hk.
  destruct (String.eqb_spec (Generic.column k) column0) as [Heq|]; [|done].
  destruct Hnot. rewrite <- Heq. by apply list_elem_of_fmap_2.
Qed.

(** X1: when the keys are on different columns, [addSortColumn] with a
    column name that is not empty takes the key of that column out, if
    there is one, keeps the other keys in their order and puts the new key
    last; the keys are again on different columns. *)
Theorem addSortColumn_moves_key_last (column0 : string) (order0 : Generic.Order)
    (st : Generic.State) :
  column0 <> "" ->
  NoDup (Generic.column <$> Generic.sortColumns st) ->
  Generic.sortColumns (Generic.addSortColumn column0 order0 st)
  = List.filter (fun k => negb (String.eqb (Generic.column k) column0)) (Generic.sortColumns st)
    ++ [ {| Generic.column := column0; Generic.order := order0 |} ]
  /\ NoDup (Generic.column <$> Generic.sortColumns (Generic.addSortColumn column0 order0 st)).
Proof.
  intros Hcol Hnodup. unfold Generic.addSortColumn.
  destruct (String.eqb_spec column0 "") as [|_]; [done |]. simpl.
  unfold findIndex.
  destruct (findIndex_from_spec (fun c => String.eqb (Generic.column c) column0) 0
              (Generic.sortColumns st))
    as [(-> & Hall) | (l1 & k & l2 & Hl & Hall & Hk & ->)]; simpl.
  - assert (column0 ∉ Generic.column <$> Generic.sortColumns st) as Hnot.
    { intros (k & -> & Hin)%list_elem_of_fmap. rewrite Forall_forall in Hall.
      specialize (Hall k Hin). simpl in Hall. by rewrite String.eqb_refl in Hall. }
    rewrite filter_keeps_all by by apply other_columns.
    split; [done |]. rewrite fmap_app. simpl.
    apply NoDup_app. split; [done |]. split; [|apply NoDup_singleton].
    intros c Hc ->%list_elem_of_singleton. done.
  - apply String.eqb_eq in Hk.
    rewrite Hl in Hnodup |- *. rewrite Z.add_0_l.
    destruct (Z.eqb_spec (Z.of_nat (List.length l1)) (-1)) as [Hm|_]; [lia |]. simpl negb.
    cbv iota. rewrite splice_one_at.
    rewrite fmap_app, fmap_cons, Hk in Hnodup.
    apply NoDup_app in Hnodup as (Hl1 & Hdisj & Hl2).
    apply NoDup_cons in Hl2 as [Hnot2 Hl2].
    assert (column0 ∉ Generic.column <$> l1) as Hnot1.
    { intros Hin. apply (Hdisj _ Hin). by left. }
    rewrite List.filter_app. simpl. rewrite Hk, String.eqb_refl. simpl.
    rewrite !filter_keeps_all by by apply other_columns.
    split; [done |]. rewrite !fmap_app. simpl.
    apply NoDup_app. split.
    + apply NoDup_app. split; [done |]. split; [|done].
      intros c Hc1 Hc2. apply (Hdisj c Hc1). by right.
    + split; [|apply NoDup_singleton].
      intros c [Hc|Hc]%elem_of_app ->%list_elem_of_singleton; done.
Qed.

Lemma addSortColumn_moves_key_last_witness :
  Generic.sortColumns (Generic.addSortColumn "Set" Generic.desc keyed_state)
  = [ {| Generic.column := "price"; Generic.order := Generic.desc |};
      {| Generic.column := "Set"; Generic.order := Generic.desc |} ]
  /\ NoDup (Generic.column <$>
            Generic.sortColumns (Generic.addSortColumn "Set" Generic.desc keyed_state)).
Proof.
  apply (addSortColumn_moves_key_last "Set" Generic.desc keyed_state).
  - discriminate.
  - refine (bool_decide_unpack _ _). vm_compute. exact I.
Defined.

(** X2: for every array index, [removeSortColumn] and the Remove button
    of that entry lead to the same state. *)
Theorem removeSortColumn_is_remove_clicked (index : nat) (st : Generic.State) :
  Generic.removeSortColumn (Z.of_nat index) st = Generic.remove_clicked index st.
Proof.
  unfold Generic.removeSortColumn, Generic.remove_clicked.
  rewrite splice_one_delete, filter_index_delete.
  destruct (Z.ltb_spec (Z.of_nat index) 0); [lia |]. by rewrite Nat2Z.id.
Qed.

(** X3: whatever number [removeSortColumn] is given, it takes out at most
    one key and keeps the others in their order: the key at the index, the
    key counted from the end for a negative index, the first key for an
    index below minus the length, none for an index past the end. *)
Theorem removeSortColumn_any_index (index : Z) (st : Generic.State) :
  Generic.sortColumns (Generic.removeSortColumn index st)
  = delete
      (Z.to_nat (if index <? 0
                 then Z.max (Z.of_nat (List.length (Generic.sortColumns st)) + index) 0
                 else index))
      (Generic.sortColumns st).
Proof. unfold Generic.removeSortColumn. simpl. apply splice_one_delete. Qed.

(** ** The states the generic page goes through *)

Section GenericSession.
Context `{E : Engine}.

(** A property of the first render that every handler keeps holds after
    every sequence of events. *)
Lemma run_invariant (Inv : Generic.State -> Prop) :
  Inv Generic.initial ->
  (forall st ev, Inv st -> Inv (Generic.step st ev)) ->
  forall evs, Inv (Generic.run evs).
Proof.
  intros Hinit Hstep evs. unfold Generic.run.
  generalize dependent Generic.initial.
  induction evs as [|ev evs IH]; intros st Hst; simpl; [done |].
  apply IH. by apply Hstep.
Qed.

(** What an upload leaves alone. *)
Lemma upload_frame (u : Generic.Upload) (st : Generic.State) :
  Generic.sortColumns (Generic.state_after (Generic.handleFileUpload u st))
  = Generic.sortColumns st
  /\ Generic.sortedData (Generic.state_after (Generic.handleFileUpload u st))
     = Generic.sortedData st.
Proof.
  destruct u as [|results|]; simpl; try done.
  unfold Generic.complete.
  by destruct (Generic.filter_rows (Generic.data results) !! 0%nat).
Qed.

Lemma upload_csvData (u : Generic.Upload) (st : Generic.State) :
  Generic.csvData (Generic.state_after (Generic.handleFileUpload u st)) = Generic.csvData st
  /\ Generic.headers (Generic.state_after (Generic.handleFileUpload u st)) = Generic.headers st
  \/ exists results,
       u = Generic.ParseComplete results
       /\ Generic.csvData (Generic.state_after (Generic.handleFileUpload u st))
          = Generic.filter_rows (Generic.data results).
Proof.
  destruct u as [|results|]; simpl; [by left | | by left].
  right. exists results. split; [done |]. unfold Generic.complete.
  by destruct (Generic.filter_rows (Generic.data results) !! 0%nat).
Qed.

Lemma handleSort_frame (st : Generic.State) :
  Generic.csvData (Generic.handleSort st) = Generic.csvData st
  /\ Generic.headers (Generic.handleSort st) = Generic.headers st
  /\ Generic.sortColumns (Generic.handleSort st) = Generic.sortColumns st.
Proof.
  unfold Generic.handleSort. destruct (Generic.csvData st) as [|row rows] eqn:Hrows; [|done].
  by rewrite Hrows.
Qed.

Lemma filter_rows_keeps_no_noise (rows : list Row) :
  Forall (fun row => ~ Policy.generic_noise row) (Generic.filter_rows rows).
Proof.
  apply Forall_forall. intros row Hrow.
  apply list_elem_of_In, filter_In in Hrow as [_ Hkeep].
  intros Hnoise. apply generic_keep_row_spec in Hnoise. congruence.
Qed.

End GenericSession.

(** The selector handlers, by the number of keys the state holds. *)
Ltac selector_cases st :=
  unfold Generic.primary_column_changed, Generic.primary_order_changed,
    Generic.secondary_column_changed, Generic.secondary_order_changed,
    Generic.tertiary_column_changed, Generic.tertiary_order_changed;
  let Hkeys := fresh "Hkeys" in
  destruct (Generic.sortColumns st) as [|? [|? [|? ?]]] eqn:Hkeys;
  simpl in *; rewrite ?Hkeys; simpl.

(** X4: through the selectors and the Remove buttons the list of sort keys
    never grows past three entries, whatever the sequence of uploads,
    selections, removals, sorts and downloads. *)
Theorem at_most_three_sort_keys `{E : Engine} (evs : list Generic.Event) :
  (List.length (Generic.sortColumns (Generic.run evs)) <= 3)%nat.
Proof.
  apply (run_invariant (fun st => (List.length (Generic.sortColumns st) <= 3)%nat));
    [simpl; lia |].
  intros st ev Hst. destruct ev as [u| | | | | | |index| |]; cbn [Generic.step];
    try (selector_cases st; lia).
  - by rewrite (proj1 (upload_frame u st)).
  - unfold Generic.remove_clicked. cbn [Generic.sortColumns Generic.setSortColumns].
    rewrite filter_index_delete.
    pose proof (sublist_length _ _ (sublist_delete (Generic.sortColumns st) index)). lia.
  - by rewrite (proj2 (proj2 (handleSort_frame st))).
Qed.

(** X5: whenever the page holds rows, the column names it offers in the
    selectors are the keys of the first row. *)
Theorem headers_are_first_row_keys `{E : Engine} (evs : list Generic.Event) :
  match Generic.csvData (Generic.run evs) with
  | row :: _ => Generic.headers (Generic.run evs) = Object_keys row
  | [] => True
  end.
Proof.
  apply (run_invariant (fun st =>
    match Generic.csvData st with
    | row :: _ => Generic.headers st = Object_keys row
    | [] => True
    end)); [done |].
  intros st ev Hst. destruct ev as [u| | | | | | |index| |]; cbn [Generic.step];
    try done; try (by selector_cases st).
  - destruct u as [|results|]; simpl; try done.
    unfold Generic.complete.
    by destruct (Generic.filter_rows (Generic.data results)) as [|row rows].
  - destruct (handleSort_frame st) as (-> & -> & _). done.
Qed.

(** X6: no row with the noise text is ever held as data, held as sorted
    data or handed to the download, whatever the files uploaded. *)
Theorem noise_rows_never_shown_or_exported `{E : Engine} (evs : list Generic.Event) :
  Forall (fun row => ~ Policy.generic_noise row) (Generic.csvData (Generic.run evs))
  /\ Forall (fun row => ~ Policy.generic_noise row) (Generic.sortedData (Generic.run evs))
  /\ match Generic.downloadSortedCSV (Generic.run evs) with
     | Some d => Forall (fun row => ~ Policy.generic_noise row) (unparsed d)
     | None => True
     end.
Proof.
  assert (Forall (fun row => ~ Policy.generic_noise row) (Generic.csvData (Generic.run evs))
          /\ Forall (fun row => ~ Policy.generic_noise row)
               (Generic.sortedData (Generic.run evs))) as [Hdata Hsorted].
  { apply (run_invariant (fun st =>
      Forall (fun row => ~ Policy.generic_noise row) (Generic.csvData st)
      /\ Forall (fun row => ~ Policy.generic_noise row) (Generic.sortedData st)));
      [by split |].
    intros st ev [Hd Hs]. destruct ev as [u| | | | | | |index| |]; cbn [Generic.step];
      try done; try (by selector_cases st).
    - rewrite (proj2 (upload_frame u st)). split; [|done].
      destruct (upload_csvData u st) as [[-> _] | (results & _ & ->)]; [done |].
      apply filter_rows_keeps_no_noise.
    - unfold Generic.handleSort. destruct (Generic.csvData st) as [|row rows] eqn:Hrows;
        [by rewrite Hrows |].
      simpl. rewrite Hrows. split; [done |]. unfold Generic.sort_rows.
      by rewrite Array_sort_Permutation. }
  split; [done |]. split; [done |].
  unfold Generic.downloadSortedCSV. by destruct (Generic.sortedData (Generic.run evs)).
Qed.

(** X7: choosing a file changes neither the sort keys nor the sorted data,
    so that the download still exports the sort of the earlier file until
    the data is sorted again. *)
Theorem upload_keeps_sorted_data (u : Generic.Upload) (st : Generic.State) :
  Generic.sortColumns (Generic.state_after (Generic.handleFileUpload u st))
  = Generic.sortColumns st
  /\ Generic.sortedData (Generic.state_after (Generic.handleFileUpload u st))
     = Generic.sortedData st
  /\ Generic.downloadSortedCSV (Generic.state_after (Generic.handleFileUpload u st))
     = Generic.downloadSortedCSV st.
Proof.
  destruct (upload_frame u st) as [Hkeys Hsorted].
  split; [done |]. split; [done |]. unfold Generic.downloadSortedCSV. by rewrite Hsorted.
Qed.

(** ** What the sort does to the order of the rows *)

Section OrderFacts.
Context {A : Type} (cmp : A -> A -> Z).

(** A list in which no element is after its successor is left as it is. *)
Lemma Array_sort_of_Sorted (l : list A) :
  Sorted (fun a b => cmp a b <= 0) l -> Array_sort cmp l = l.
Proof.
  induction 1 as [|x l Hl IH Hhd]; simpl; [done |].
  rewrite IH. destruct Hhd as [|y l' Hxy]; simpl; [done |].
  destruct (Z.ltb_spec 0 (cmp x y)); [lia | done].
Qed.

Lemma Sorted_of_ties (l : list A) :
  (forall x y, x ∈ l -> y ∈ l -> cmp x y <= 0) -> Sorted (fun a b => cmp a b <= 0) l.
Proof.
  induction l as [|x l IH]; intros Hties; [constructor |].
  constructor.
  - apply IH. intros a b Ha Hb. apply Hties; by right.
  - destruct l as [|y l]; constructor. apply Hties; [by left | by right; left].
Qed.



End OrderFacts.

Section GenericOrderFacts.
Context `{E : Engine}.

Lemma compare_key_antisym (k : Generic.SortKey) (a b : Row) :
  Antisymmetric_collation E ->
  Generic.compare_key k b a = - Generic.compare_key k a b.
Proof.
  intros Hanti. rewrite !compare_key_policy by done. unfold Policy.key_result.
  rewrite (compare_values_antisym (a !! Generic.column k) (b !! Generic.column k) Hanti).
  by destruct (Generic.order k).
Qed.

Lemma comparator_antisym (keys : list Generic.SortKey) (a b : Row) :
  Antisymmetric_collation E ->
  Generic.comparator keys b a = - Generic.comparator keys a b.
Proof.
  intros Hanti. induction keys as [|k keys IH]; simpl; [done |].
  rewrite (compare_key_antisym k a b Hanti).
  destruct (Z.eqb_spec (Generic.compare_key k a b) 0) as [->|Hne]; simpl; [done |].
  destruct (Z.eqb_spec (- Generic.compare_key k a b) 0); [lia | done].
Qed.

(** A key whose column neither row has compares the two ["undefined"]
    and ties. *)
Lemma compare_key_absent (k : Generic.SortKey) (a b : Row) :
  Antisymmetric_collation E ->
  a !! Generic.column k = None -> b !! Generic.column k = None ->
  Generic.compare_key k a b = 0.
Proof.
  intros Hanti Ha Hb. unfold Generic.compare_key. rewrite Ha, Hb. simpl.
  pose proof (Hanti "undefined" "undefined"). destruct (Generic.order k); lia.
Qed.

End GenericOrderFacts.

(** X8: with an antisymmetric collation, no row of the sorted data is
    after its successor by the comparator of the chosen keys. *)
Theorem sorted_rows_are_in_order `{E : Engine} (keys : list Generic.SortKey) (D : list Row) :
  Antisymmetric_collation E ->
  Sorted (fun a b => Generic.comparator keys a b <= 0) (Generic.sort_rows keys D).
Proof.
  intros Hanti. apply Array_sort_Sorted. intros a b Hab.
  rewrite (comparator_antisym keys a b Hanti). lia.
Qed.

Lemma sorted_rows_are_in_order_witness :
  Sorted (fun a b => Generic.comparator (E := code_unit_engine) two_keys a b <= 0)
    (Generic.sort_rows (E := code_unit_engine) two_keys
       [price_row 10; price_row 2; price_row 30]).
Proof.
  apply (sorted_rows_are_in_order (E := code_unit_engine)).
  exact code_unit_engine_antisymmetric.
Defined.

(** X9: with an antisymmetric collation, sorting rows that are already
    sorted by the same keys changes nothing. *)
Theorem sort_rows_twice `{E : Engine} (keys : list Generic.SortKey) (D : list Row) :
  Antisymmetric_collation E ->
  Generic.sort_rows keys (Generic.sort_rows keys D) = Generic.sort_rows keys D.
Proof.
  intros Hanti. unfold Generic.sort_rows at 1. apply Array_sort_of_Sorted.
  apply Array_sort_Sorted. intros a b Hab.
  rewrite (comparator_antisym keys a b Hanti). lia.
Qed.

Lemma sort_rows_twice_witness :
  Generic.sort_rows (E := code_unit_engine) two_keys
    (Generic.sort_rows (E := code_unit_engine) two_keys
       [price_row 10; price_row 2; price_row 30])
  = Generic.sort_rows (E := code_unit_engine) two_keys
      [price_row 10; price_row 2; price_row 30].
Proof.
  apply (sort_rows_twice (E := code_unit_engine)).
  exact code_unit_engine_antisymmetric.
Defined.

(** X10: sort keys on columns that no row has tie on every pair of rows,
    and sorting by them returns the rows in their original order. *)
Theorem absent_columns_keep_order `{E : Engine} (keys : list Generic.SortKey) (D : list Row) :
  Antisymmetric_collation E ->
  Forall (fun k => Forall (fun row : Row => row !! Generic.column k = None) D) keys ->
  Generic.sort_rows keys D = D.
Proof.
  intros Hanti Habsent. apply Array_sort_of_Sorted, Sorted_of_ties.
  intros a b Ha Hb. pose proof (comparator_skips_ties keys [] a b) as Hskip.
  rewrite app_nil_r in Hskip. rewrite Hskip; [simpl; lia |].
  eapply Forall_impl; [exact Habsent |]. intros k Hk. simpl in Hk.
  rewrite Forall_forall in Hk. apply compare_key_absent; auto.
Qed.

Lemma absent_columns_keep_order_witness :
  Generic.sort_rows (E := code_unit_engine)
    [ {| Generic.column := "Set"; Generic.order := Generic.desc |} ]
    [price_row 10; price_row 2; price_row 30]
  = [price_row 10; price_row 2; price_row 30].
Proof.
  apply (absent_columns_keep_order (E := code_unit_engine)).
  - exact code_unit_engine_antisymmetric.
  - repeat constructor.
Defined.

(** X11: keys on which two rows tie do not take part in their
    comparison: it is the comparison by the key that follows them when that
    one does not tie, and by the keys after it when it does. *)
Theorem tied_keys_do_not_decide `{E : Engine} (ties : list Generic.SortKey)
    (k : Generic.SortKey) (keys : list Generic.SortKey) (a b : Row) :
  Forall (fun t => Generic.compare_key t a b = 0) ties ->
  Generic.comparator (ties ++ k :: keys) a b
  = if Generic.compare_key k a b =? 0 then Generic.comparator keys a b
    else Generic.compare_key k a b.
Proof.
  intros Hties. rewrite comparator_skips_ties by done. simpl.
  by destruct (Generic.compare_key k a b =? 0).
Qed.

Lemma tied_keys_do_not_decide_witness :
  Generic.comparator (E := code_unit_engine) two_keys (price_row 10) (price_row 2) = 8.
Proof.
  apply (tied_keys_do_not_decide (E := code_unit_engine)
           [ {| Generic.column := "Set"; Generic.order := Generic.desc |} ]
           {| Generic.column := "price"; Generic.order := Generic.asc |} []
           (price_row 10) (price_row 2)).
  repeat constructor.
Defined.



(** ** The records of the domain-specific variant *)

Section RecordFacts.

Lemma text_before_has_no_sep (sep : ascii) (s : string) :
  includes (text_before sep s) (String sep EmptyString) = false.
Proof.
  induction s as [|c s IH]; simpl; [done |].
  destruct (Ascii.eqb c sep) eqn:Hc; simpl; [done |].
  by rewrite (Ascii.eqb_sym sep c), Hc, IH.
Qed.

Lemma or_else_truthy (cell : option Value) (dflt : Value) :
  truthy dflt = true -> truthy (or_else cell dflt) = true.
Proof.
  intros Hd. unfold or_else. destruct cell as [v|]; [|done].
  by destruct (truthy v) eqn:Hv.
Qed.

Lemma or_else_string_cell (cell : option string) (dflt : string) :
  or_else (VStr <$> cell) (VStr dflt) = VStr (string_or dflt cell).
Proof.
  destruct cell as [s|]; simpl; [|done]. by destruct (String.eqb s "").
Qed.

Lemma numbershort_of_shape (number : option Value) (ns : string) :
  Cards.numbershort_of number = Ok ns -> includes ns "-" = false.
Proof.
  destruct number as [[s|n|b]|]; try done.
  - rewrite numbershort_of_string. intros [= <-]. apply text_before_has_no_sep.
  - by intros [= <-].
Qed.

Lemma map_row_shape (row : Row) (card : Cards.CSVRow) :
  Cards.map_row row = Ok card -> normalized_shape card.
Proof.
  unfold Cards.map_row. intros Hcard.
  destruct (Cards.numbershort_of (row !! "Number")) as [ns|e] eqn:Hns; [|done].
  simpl in Hcard. injection Hcard as <-. unfold normalized_shape. simpl.
  split; [done |]. split; [by apply (numbershort_of_shape (row !! "Number")) |].
  by apply or_else_truthy.
Qed.

Lemma map_exc_Forall {A B : Type} (f : A -> Exc B) (P : B -> Prop) (l : list A) (l' : list B) :
  (forall x y, f x = Ok y -> P y) -> map_exc f l = Ok l' -> Forall P l'.
Proof.
  intros Hf. revert l'. induction l as [|x l IH]; intros l'; simpl.
  - by intros [= <-].
  - destruct (f x) as [y|e] eqn:Hy; [|done]. simpl.
    destruct (map_exc f l) as [ys|e]; [|done]. simpl. intros [= <-].
    constructor; [by apply (Hf x) | by apply IH].
Qed.

Lemma map_exc_length {A B : Type} (f : A -> Exc B) (l : list A) (l' : list B) :
  map_exc f l = Ok l' -> List.length l' = List.length l.
Proof.
  revert l'. induction l as [|x l IH]; intros l'; simpl.
  - by intros [= <-].
  - destruct (f x) as [y|e]; [|done]. simpl.
    destruct (map_exc f l) as [ys|e]; [|done]. simpl. intros [= <-].
    simpl. by rewrite (IH ys).
Qed.

Lemma map_exc_throws {A B : Type} (f : A -> Exc B) (l : list A) (x : A) :
  x ∈ l -> f x = Throw TypeError -> map_exc f l = Throw TypeError.
Proof.
  intros Hin Hx. induction l as [|y l IH]; [by apply elem_of_nil in Hin |].
  simpl. apply elem_of_cons in Hin as [<- | Hin].
  - by rewrite Hx.
  - destruct (f y) as [z|[]]; [|done]. simpl. by rewrite IH.
Qed.

Lemma sorted_insert_exc_Permutation {A : Type} (cmp : A -> A -> Exc Z) (x : A)
    (l t : list A) :
  sorted_insert_exc cmp x l = Ok t -> t ≡ₚ x :: l.
Proof.
  revert t. induction l as [|y l IH]; intros t; simpl.
  - by intros [= <-].
  - destruct (cmp x y) as [r|e]; [|done]. simpl.
    destruct (0 <? r).
    + destruct (sorted_insert_exc cmp x l) as [t'|e]; [|done]. simpl.
      intros [= <-]. rewrite (IH t') by done. apply Permutation_swap.
    + by intros [= <-].
Qed.

Lemma Array_sort_exc_Permutation {A : Type} (cmp : A -> A -> Exc Z) (l t : list A) :
  Array_sort_exc cmp l = Ok t -> t ≡ₚ l.
Proof.
  revert t. induction l as [|x l IH]; intros t; simpl.
  - by intros [= <-].
  - destruct (Array_sort_exc cmp l) as [t'|e]; [|done]. simpl.
    intros Ht%sorted_insert_exc_Permutation. by rewrite Ht, (IH t').
Qed.

End RecordFacts.

(** X13: the [.map] callback returns a record for every row whose
    [Number] cell is absent or a string, and throws a [TypeError] for a
    row whose [Number] is a number or a boolean. *)
Theorem map_row_returns_unless_number_is_not_a_string (row : Row) :
  match row !! "Number" with
  | None | Some (VStr _) => exists card, Cards.map_row row = Ok card
  | Some _ => Cards.map_row row = Throw TypeError
  end.
Proof.
  unfold Cards.map_row. destruct (row !! "Number") as [[s|n|b]|]; try done.
  - rewrite numbershort_of_string. by eexists.
  - by eexists.
Qed.

(** X14: every record the normalization returns has empty notes, a short
    number without ['-'] and a quantity that is not empty, and carries the
    raw [Number] cell as it was. *)
Theorem normalized_record_shape (row : Row) (card : Cards.CSVRow) :
  Cards.map_row row = Ok card ->
  normalized_shape card /\ Cards.number card = row !! "Number".
Proof.
  intros Hcard. split; [by apply (map_row_shape row) |].
  unfold Cards.map_row in Hcard.
  destruct (Cards.numbershort_of (row !! "Number")); [|done].
  simpl in Hcard. by injection Hcard as <-.
Qed.

Lemma normalized_record_shape_witness :
  exists card,
    Cards.map_row scenario_row_1 = Ok card
    /\ normalized_shape card /\ Cards.number card = scenario_row_1 !! "Number".
Proof.
  eexists. split; [vm_compute; reflexivity |].
  apply (normalized_record_shape scenario_row_1). vm_compute; reflexivity.
Defined.

(** X15: the fields product name, condition, rarity and set are the raw
    [Product Name], [Condition], [Rarity] and [Set] cells, each replaced by
    the empty string when it is absent or empty. *)
Theorem text_fields_default_to_empty (row : Row) (card : Cards.CSVRow)
    (p c r s : option string) :
  row !! "Product Name" = VStr <$> p ->
  row !! "Condition" = VStr <$> c ->
  row !! "Rarity" = VStr <$> r ->
  row !! "Set" = VStr <$> s ->
  Cards.map_row row = Ok card ->
  Cards.product_name card = VStr (string_or "" p)
  /\ Cards.condition card = VStr (string_or "" c)
  /\ Cards.rarity card = VStr (string_or "" r)
  /\ Cards.set card = VStr (string_or "" s).
Proof.
  intros Hp Hc Hr Hs Hcard. unfold Cards.map_row in Hcard.
  destruct (Cards.numbershort_of (row !! "Number")); [|done].
  simpl in Hcard. injection Hcard as <-. simpl.
  by rewrite Hp, Hc, Hr, Hs, !or_else_string_cell.
Qed.

Lemma text_fields_default_to_empty_witness :
  exists card,
    Cards.map_row scenario_row_1 = Ok card
    /\ Cards.product_name card = VStr ""
    /\ Cards.condition card = VStr ""
    /\ Cards.rarity card = VStr "Common"
    /\ Cards.set card = VStr "".
Proof.
  eexists. split; [vm_compute; reflexivity |].
  apply (text_fields_default_to_empty scenario_row_1 _ None None (Some "Common") None);
    vm_compute; reflexivity.
Defined.

(** X16: when the pipeline returns, it returns the normalized records of
    the rows that passed the filter, each once: none lost, none added. *)
Theorem transform_keeps_every_surviving_row `{E : Engine} (rows : list Row)
    (cards : list Cards.CSVRow) :
  Cards.transform rows = Ok cards ->
  exists normalized,
    map_exc Cards.map_row (Cards.filter_rows rows) = Ok normalized
    /\ cards ≡ₚ normalized
    /\ List.length cards = List.length (Cards.filter_rows rows).
Proof.
  unfold Cards.transform. intros Hcards.
  destruct (map_exc Cards.map_row (Cards.filter_rows rows)) as [normalized|e] eqn:Hmap;
    [|done].
  simpl in Hcards. apply Array_sort_exc_Permutation in Hcards.
  exists normalized. split; [done |]. split; [done |].
  by rewrite Hcards, (map_exc_length _ _ _ Hmap).
Qed.

Lemma transform_keeps_every_surviving_row_witness :
  exists normalized,
    map_exc Cards.map_row
      (Cards.filter_rows (E := alphabetical_engine) [set_row "B"; set_row "a"])
    = Ok normalized
    /\ [card_of_set "a"; card_of_set "B"] ≡ₚ normalized
    /\ List.length [card_of_set "a"; card_of_set "B"]
       = List.length (Cards.filter_rows (E := alphabetical_engine) [set_row "B"; set_row "a"]).
Proof.
  apply (transform_keeps_every_surviving_row (E := alphabetical_engine)
           [set_row "B"; set_row "a"]).
  vm_compute. reflexivity.
Defined.

(** ** Uploads in the domain-specific variant *)

Section CardsSessionFacts.
Context `{E : Engine}.

Lemma append_assoc (s t u : string) : (s +:+ t) +:+ u = s +:+ t +:+ u.
Proof.
  induction s as [|c s IH]; [done |].
  change (String c ((s +:+ t) +:+ u) = String c (s +:+ t +:+ u)). by rewrite IH.
Qed.

Lemma Occurs_trans (sub mid s : string) :
  Occurs sub mid -> Occurs mid s -> Occurs sub s.
Proof.
  intros (p2 & q2 & ->) (p1 & q1 & ->).
  exists (p1 +:+ p2), (q2 +:+ q1). by rewrite !append_assoc.
Qed.

Lemma includes_trans (s mid sub : string) :
  includes mid sub = true -> includes s mid = true -> includes s sub = true.
Proof. rewrite !includes_spec. apply Occurs_trans. Qed.

Lemma cards_run_invariant (Inv : Cards.State -> Prop) :
  Inv Cards.initial ->
  (forall st ev, Inv st -> Inv (Cards.handleFileUpload ev st)) ->
  forall evs, Inv (Cards.run evs).
Proof.
  intros Hinit Hstep evs. unfold Cards.run.
  generalize dependent Cards.initial.
  induction evs as [|ev evs IH]; intros st Hst; simpl; [done |].
  apply IH. by apply Hstep.
Qed.

Lemma transform_shape (rows : list Row) (cards : list Cards.CSVRow) :
  Cards.transform rows = Ok cards -> Forall normalized_shape cards.
Proof.
  unfold Cards.transform. intros Hcards.
  destruct (map_exc Cards.map_row (Cards.filter_rows rows)) as [normalized|e] eqn:Hmap;
    [|done].
  simpl in Hcards. apply Array_sort_exc_Permutation in Hcards. rewrite Hcards.
  apply (map_exc_Forall _ _ _ _ map_row_shape Hmap).
Qed.

End CardsSessionFacts.

(** X17: one row that passes the filter with a [Number] that is not a
    string makes the whole upload fail: the message is
    ["Error processing CSV file"] and the dataset shown stays the one
    before. *)
Theorem non_string_number_fails_the_upload `{E : Engine} (rows : list Row) (row : Row)
    (v : Value) (st : Cards.State) :
  row ∈ Cards.filter_rows rows ->
  row !! "Number" = Some v ->
  is_string v = false ->
  Cards.handleFileUpload (Cards.Resolved {| Cards.data := rows; Cards.errors := [] |}) st
  = {| Cards.csvData := Cards.csvData st; Cards.error := "Error processing CSV file" |}.
Proof.
  intros Hin Hrow Hv. simpl. unfold Cards.transform.
  rewrite (map_exc_throws Cards.map_row _ row Hin); [done |].
  unfold Cards.map_row. rewrite Hrow. by destruct v.
Qed.

Lemma non_string_number_fails_the_upload_witness :
  Cards.handleFileUpload (E := code_unit_engine)
    (Cards.Resolved {| Cards.data := [numbered_row]; Cards.errors := [] |}) shown_state
  = {| Cards.csvData := [card_of_set "LOB"]; Cards.error := "Error processing CSV file" |}.
Proof.
  apply (non_string_number_fails_the_upload (E := code_unit_engine)
           [numbered_row] numbered_row (VNum 7) shown_state).
  - apply list_elem_of_In. vm_compute. left. reflexivity.
  - vm_compute. reflexivity.
  - reflexivity.
Defined.

(** X18: in the noise test of the domain-specific variant the first text
    adds nothing: a value is noise exactly when it is a string whose
    lower-cased form contains ["pull sheet"]. *)
Theorem pull_sheet_alone_decides `{E : Engine} (value : Value) :
  Cards.is_noise_value value
  = match value with
    | VStr s => includes (toLowerCase s) "pull sheet"
    | _ => false
    end.
Proof.
  destruct value as [s|n|b]; try done. simpl.
  destruct (includes (toLowerCase s) "orders contained in pull sheet") eqn:Hlong; [|done].
  simpl. symmetry. by apply (includes_trans _ "orders contained in pull sheet").
Qed.

(** X19: whatever files are chosen one after the other, every record the
    page shows has empty notes, a short number without ['-'] and a
    quantity that is not empty. *)
Theorem shown_records_are_normalized `{E : Engine} (evs : list Cards.Upload) :
  Forall normalized_shape (Cards.csvData (Cards.run evs)).
Proof.
  apply (cards_run_invariant (fun st => Forall normalized_shape (Cards.csvData st)));
    [by constructor |].
  intros st [|[rows errs]|] Hst; simpl; try done.
  destruct errs as [|e es]; simpl; [|done].
  destruct (Cards.transform rows) as [cards|err] eqn:Hcards; simpl; [|done].
  by apply (transform_shape rows).
Qed.



(** ** Edge cases of the uploads and of the selectors *)

(** X21: the [complete] callback of the generic variant throws exactly
    when no row passes the filter; when a row does, it returns with the
    rows that passed as data and the keys of the first of them as
    headers. *)
Theorem complete_throws_iff_no_row_survives (results : Generic.PapaParseResult)
    (st : Generic.State) :
  ((exists e st', Generic.complete results st = Generic.Throws e st')
   <-> Generic.filter_rows (Generic.data results) = [])
  /\ match Generic.filter_rows (Generic.data results) with
     | row :: rows =>
         Generic.complete results st
         = Generic.Returns
             (Generic.setHeaders (Object_keys row) (Generic.setCsvData (row :: rows) st))
     | [] => True
     end.
Proof.
  unfold Generic.complete.
  destruct (Generic.filter_rows (Generic.data results)) as [|row rows]; simpl.
  - split; [|done]. split; [done |]. intros _. by eexists _, _.
  - split; [|done]. split; [by intros (e & st' & [=]) | done].
Qed.

(** X22: a file all of whose rows are noise leaves the domain-specific
    page with an empty dataset, no error message and no download
    button. *)
Theorem all_noise_upload_shows_nothing `{E : Engine} (rows : list Row) (st : Cards.State) :
  Forall Policy.cards_noise rows ->
  Cards.handleFileUpload (Cards.Resolved {| Cards.data := rows; Cards.errors := [] |}) st
  = {| Cards.csvData := []; Cards.error := "" |}
  /\ Cards.download_offered
       (Cards.handleFileUpload (Cards.Resolved {| Cards.data := rows; Cards.errors := [] |}) st)
     = false.
Proof.
  intros Hnoise.
  assert (Cards.filter_rows rows = []) as Hempty.
  { unfold Cards.filter_rows. induction Hnoise as [|row rows Hrow _ IH]; simpl; [done |].
    apply cards_keep_row_spec in Hrow. by rewrite Hrow. }
  simpl. unfold Cards.transform. by rewrite Hempty.
Qed.

Lemma all_noise_upload_shows_nothing_witness :
  Cards.handleFileUpload (E := code_unit_engine)
    (Cards.Resolved {| Cards.data := [set_row "Orders Contained in Pull Sheet - Page 1"];
                       Cards.errors := [] |}) shown_state
  = {| Cards.csvData := []; Cards.error := "" |}
  /\ Cards.download_offered
       (Cards.handleFileUpload (E := code_unit_engine)
          (Cards.Resolved {| Cards.data := [set_row "Orders Contained in Pull Sheet - Page 1"];
                             Cards.errors := [] |}) shown_state)
     = false.
Proof.
  apply (all_noise_upload_shows_nothing (E := code_unit_engine)).
  constructor; [|constructor].
  apply (cards_keep_row_spec (E := code_unit_engine)). vm_compute. reflexivity.
Defined.

(** X23: a selector either leaves the list of sort keys as it is or cuts
    it down to the keys of the slots before its own and puts one key after
    them: the keys of the later slots are dropped. *)
Theorem selectors_drop_later_keys `{E : Engine} (ev : Generic.Event) (slot : nat)
    (st : Generic.State) :
  selector_slot ev = Some slot ->
  Generic.sortColumns (Generic.step st ev) = Generic.sortColumns st
  \/ exists k, Generic.sortColumns (Generic.step st ev)
               = take slot (Generic.sortColumns st) ++ [k].
Proof.
  intros Hslot.
  destruct ev as [u| | | | | | |index| |]; simpl in Hslot; try done;
    injection Hslot as <-; cbn [Generic.step];
    selector_cases st; try (by left); right; by eexists.
Qed.

Lemma selectors_drop_later_keys_witness :
  Generic.sortColumns
    (Generic.step (E := code_unit_engine) keyed_state (Generic.PrimaryOrder Generic.desc))
  = Generic.sortColumns keyed_state
  \/ exists k,
       Generic.sortColumns
         (Generic.step (E := code_unit_engine) keyed_state (Generic.PrimaryOrder Generic.desc))
       = take 0 (Generic.sortColumns keyed_state) ++ [k].
Proof.
  apply (selectors_drop_later_keys (E := code_unit_engine)
           (Generic.PrimaryOrder Generic.desc) 0 keyed_state).
  reflexivity.
Defined.
